(** * Meeting-notes pipeline: a shallow embedding of [meeting_notes.py]

    The development follows the source file top-down: the two dataclasses
    and the Markdown renderer, the audio chunker, the transcription loop,
    the defensive decoding of the extraction payload, and [main].

    Python values are modelled by [pyval] (the values [json.loads] can
    produce), Python [str] by lists of Unicode code points, raised
    exceptions by the error monad [result]. The two remote capabilities
    (speech-to-text and chat completion) are functions handed to the
    pipeline; the transcription requests made are returned next to the
    outcome, so that the number and the contents of the calls can be
    stated. *)

From Stdlib Require Import List NArith ZArith Bool Arith Lia.
From Stdlib Require String Ascii.
Import ListNotations String.StringSyntax.

Set Implicit Arguments.
Delimit Scope string_scope with str.
Set Warnings "-register-all".

(** ** Python strings *)

Module PyStr.

(** A Python [str] is a sequence of Unicode code points. *)
Definition pystr := list N.

Definition eqb (a b : pystr) : bool :=
  if list_eq_dec N.eq_dec a b then true else false.

(** Reading of an ASCII literal as a [str]. *)
Definition py (s : String.string) : pystr :=
  map Ascii.N_of_ascii (String.list_ascii_of_string s).
Arguments py s%_str.

(** Same, for JSON texts: an apostrophe in the literal stands for the
    double quote (code point 34). *)
Definition js (s : String.string) : pystr :=
  map (fun c => if N.eqb c 39 then 34%N else c) (py s).
Arguments js s%_str.

Definition nl : N := 10.
Definition backtick : N := 96.

(** [str.isspace] on one code point: the characters removed by
    [str.strip()] called without argument. *)
Definition is_space (c : N) : bool :=
  ((9 <=? c) && (c <=? 13) || (28 <=? c) && (c <=? 32)
   || (c =? 133) || (c =? 160) || (c =? 5760)
   || (8192 <=? c) && (c <=? 8202)
   || (c =? 8232) || (c =? 8233) || (c =? 8239) || (c =? 8287)
   || (c =? 12288))%N.

Fixpoint lstrip (p : N -> bool) (s : pystr) : pystr :=
  match s with
  | c :: r => if p c then lstrip p r else s
  | [] => []
  end.

Definition rstrip (p : N -> bool) (s : pystr) : pystr :=
  rev (lstrip p (rev s)).

(** [s.strip(chars)], the set [chars] given by its membership test. *)
Definition strip_by (p : N -> bool) (s : pystr) : pystr :=
  rstrip p (lstrip p s).

(** [s.strip()] *)
Definition strip (s : pystr) : pystr := strip_by is_space s.

(** [s.strip("`")] *)
Definition strip_backticks (s : pystr) : pystr :=
  strip_by (N.eqb backtick) s.

(** [sep.join(parts)] *)
Fixpoint join (sep : pystr) (parts : list pystr) : pystr :=
  match parts with
  | [] => []
  | [p] => p
  | p :: rest => p ++ sep ++ join sep rest
  end.

(** [s.startswith(prefix)], returning what follows the prefix. *)
Fixpoint after_prefix (prefix s : pystr) : option pystr :=
  match prefix, s with
  | [], _ => Some s
  | p :: prefix', c :: s' =>
      if N.eqb p c then after_prefix prefix' s' else None
  | _ :: _, [] => None
  end.

End PyStr.
Import PyStr.

(** ** Exceptions *)

Inductive exn : Type :=
| SystemExit (msg : pystr)
| AttributeError
| ValueError
| ClientError (detail : pystr).

Inductive result (A : Type) : Type :=
| Ok (a : A)
| Raise (e : exn).
Arguments Ok {A} a.
Arguments Raise {A} e.

Definition bind {A B : Type} (r : result A) (k : A -> result B) : result B :=
  match r with
  | Ok a => k a
  | Raise e => Raise e
  end.

Declare Scope py_scope.
Delimit Scope py_scope with py.
Notation "x <- c ;; k" := (bind c (fun x => k))
  (at level 61, c at next level, right associativity) : py_scope.
Open Scope py_scope.

(** ** Values produced by the JSON decoder *)

(** A float is kept as the exact decimal its literal denotes; the program
    only ever tests floats for truth. *)
Inductive pyfloat : Type :=
| FNaN
| FInf (negative : bool)
| FDec (negative : bool) (mantissa : N) (exp10 : Z).

Inductive pyval : Type :=
| PNone
| PBool (b : bool)
| PInt (z : Z)
| PFloat (f : pyfloat)
| PStr (s : pystr)
| PList (l : list pyval)
| PDict (d : list (pystr * pyval)).

(** [float(text) != 0.0]: conversion rounds to nearest, ties to even, so
    a literal denotes zero exactly when its value is at most [2^-1075]. *)
Definition float_nonzero (f : pyfloat) : bool :=
  match f with
  | FNaN => true
  | FInf _ => true
  | FDec _ m e =>
      if (m =? 0)%N then false
      else if (0 <=? e)%Z then true
      else (Z.pow 10 (- e) <? Z.of_N m * Z.pow 2 1075)%Z
  end.

(** Truth value of a decoded value, as tested by [if], [and] and [or]. *)
Definition truthy (v : pyval) : bool :=
  match v with
  | PNone => false
  | PBool b => b
  | PInt z => negb (z =? 0)%Z
  | PFloat f => float_nonzero f
  | PStr s => match s with [] => false | _ => true end
  | PList l => match l with [] => false | _ => true end
  | PDict d => match d with [] => false | _ => true end
  end.

(** [a or None] *)
Definition or_none (v : pyval) : pyval := if truthy v then v else PNone.

(** *** Dictionaries: insertion-ordered association lists *)

Fixpoint dict_lookup (d : list (pystr * pyval)) (k : pystr) : option pyval :=
  match d with
  | [] => None
  | (k', v) :: d' => if PyStr.eqb k' k then Some v else dict_lookup d' k
  end.

(** [d[k] = v]: a present key keeps its position and takes the new value. *)
Fixpoint dict_set (d : list (pystr * pyval)) (k : pystr) (v : pyval)
  : list (pystr * pyval) :=
  match d with
  | [] => [(k, v)]
  | (k', v') :: d' =>
      if PyStr.eqb k' k then (k', v) :: d' else (k', v') :: dict_set d' k v
  end.

(** [dict(pairs)] *)
Definition dict_of_pairs (pairs : list (pystr * pyval)) : list (pystr * pyval) :=
  fold_left (fun d kv => dict_set d (fst kv) (snd kv)) pairs [].

(** [d.get(k)] and [d.get(k, default)] on a dict. *)
Definition dict_get (d : list (pystr * pyval)) (k : pystr) : pyval :=
  match dict_lookup d k with Some v => v | None => PNone end.

Definition dict_get_default (d : list (pystr * pyval)) (k : pystr)
  (default : pyval) : pyval :=
  match dict_lookup d k with Some v => v | None => default end.

(** [x.get(k)] on any decoded value: only a dict has the method. *)
Definition py_get (x : pyval) (k : pystr) : result pyval :=
  match x with
  | PDict d => Ok (dict_get d k)
  | _ => Raise AttributeError
  end.

Definition py_get_default (x : pyval) (k : pystr) (default : pyval)
  : result pyval :=
  match x with
  | PDict d => Ok (dict_get_default d k default)
  | _ => Raise AttributeError
  end.

(** [x.strip()] on any decoded value: only a str has the method. *)
Definition py_strip (x : pyval) : result pystr :=
  match x with
  | PStr s => Ok (strip s)
  | _ => Raise AttributeError
  end.

Definition is_list (v : pyval) : bool :=
  match v with PList _ => true | _ => false end.

Definition is_dict (v : pyval) : bool :=
  match v with PDict _ => true | _ => false end.

(** ** The JSON decoder

    [json.loads] belongs to Python's standard library. The model follows
    its scanner: a recursive descent over the text, with the number
    grammar, the string escapes and the [NaN]/[Infinity] literals of the
    default decoder. Recursion is bounded by a fuel counter; the entry
    point [json_loads] supplies enough of it for any text (lemma
    [scan_once_enough_fuel]). *)

Module Json.

Inductive outcome (A : Type) : Type :=
| Parsed (a : A) (rest : pystr)
| Invalid
| Starved.
Arguments Parsed {A} a rest.
Arguments Invalid {A}.
Arguments Starved {A}.

Definition is_ws (c : N) : bool :=
  ((c =? 32) || (c =? 9) || (c =? 10) || (c =? 13))%N.

Fixpoint skip_ws (s : pystr) : pystr :=
  match s with
  | c :: r => if is_ws c then skip_ws r else s
  | [] => []
  end.

Definition is_digit (c : N) : bool := ((48 <=? c) && (c <=? 57))%N.

(** Longest prefix of decimal digits, and what follows it. *)
Fixpoint take_digits (s : pystr) : pystr * pystr :=
  match s with
  | c :: r =>
      if is_digit c
      then let (ds, rest) := take_digits r in (c :: ds, rest)
      else ([], s)
  | [] => ([], [])
  end.

Definition digits_value (ds : pystr) : N :=
  fold_left (fun acc d => (acc * 10 + (d - 48))%N) ds 0%N.

(** The integer part of a number (an optional minus sign, then a lone
    zero or a digit string without leading zero): sign, digits, rest. *)
Definition match_integer (s : pystr) : option (bool * pystr * pystr) :=
  let (neg, s1) :=
    match s with
    | c :: r => if (c =? 45)%N then (true, r) else (false, s)
    | [] => (false, s)
    end in
  match s1 with
  | c :: r =>
      if (c =? 48)%N then Some (neg, [c], r)
      else if is_digit c
           then let (ds, rest) := take_digits r in Some (neg, c :: ds, rest)
           else None
  | [] => None
  end.

(** The optional fraction (a dot and at least one digit): its digits,
    rest. *)
Definition match_frac (s : pystr) : pystr * pystr :=
  match s with
  | c :: r =>
      if (c =? 46)%N
      then match take_digits r with
           | ([], _) => ([], s)
           | (ds, rest) => (ds, rest)
           end
      else ([], s)
  | [] => ([], s)
  end.

(** The optional exponent (e or E, an optional sign, at least one
    digit): its value, rest. *)
Definition match_exp (s : pystr) : option Z * pystr :=
  match s with
  | c :: r =>
      if ((c =? 101) || (c =? 69))%N
      then
        let (neg, r1) :=
          match r with
          | sg :: r' =>
              if (sg =? 45)%N then (true, r')
              else if (sg =? 43)%N then (false, r')
              else (false, r)
          | [] => (false, r)
          end in
        match take_digits r1 with
        | ([], _) => (None, s)
        | (ds, rest) =>
            let e := Z.of_N (digits_value ds) in
            (Some (if neg then (- e)%Z else e), rest)
        end
      else (None, s)
  | [] => (None, s)
  end.

(** A number literal: an int when it has neither fraction nor exponent,
    a float otherwise. *)
Definition match_number (s : pystr) : option (pyval * pystr) :=
  match match_integer s with
  | None => None
  | Some (neg, ids, r1) =>
      let (fds, r2) := match_frac r1 in
      let (ex, r3) := match_exp r2 in
      match fds, ex with
      | [], None =>
          let n := Z.of_N (digits_value ids) in
          Some (PInt (if neg then (- n)%Z else n), r3)
      | _, _ =>
          let e := match ex with Some e => e | None => 0%Z end in
          Some (PFloat (FDec neg (digits_value (ids ++ fds))
                             (e - Z.of_nat (length fds))), r3)
      end
  end.

Definition hex_digit (c : N) : option N :=
  if is_digit c then Some (c - 48)%N
  else if ((97 <=? c) && (c <=? 102))%N then Some (c - 87)%N
  else if ((65 <=? c) && (c <=? 70))%N then Some (c - 55)%N
  else None.

Definition hex4 (a b c d : N) : option N :=
  match hex_digit a, hex_digit b, hex_digit c, hex_digit d with
  | Some x, Some y, Some z, Some w =>
      Some (((x * 16 + y) * 16 + z) * 16 + w)%N
  | _, _, _, _ => None
  end.

(** The character a one-letter escape stands for. *)
Definition backslash (c : N) : option N :=
  if (c =? 34)%N then Some 34%N
  else if (c =? 92)%N then Some 92%N
  else if (c =? 47)%N then Some 47%N
  else if (c =? 98)%N then Some 8%N
  else if (c =? 102)%N then Some 12%N
  else if (c =? 110)%N then Some 10%N
  else if (c =? 114)%N then Some 13%N
  else if (c =? 116)%N then Some 9%N
  else None.

Definition is_high_surrogate (u : N) : bool :=
  ((55296 <=? u) && (u <=? 56319))%N.
Definition is_low_surrogate (u : N) : bool :=
  ((56320 <=? u) && (u <=? 57343))%N.

(** First pass of [scanstring] (strict mode), entered after the opening
    quote: the characters up to the closing quote, each marked when it
    was written as a [\uXXXX] escape, and the text after the quote. *)
Fixpoint scan_units (s : pystr) : option (list (bool * N) * pystr) :=
  match s with
  | [] => None
  | c :: r =>
      if (c =? 34)%N then Some ([], r)
      else if (c =? 92)%N then
        match r with
        | [] => None
        | e :: r1 =>
            if (e =? 117)%N then
              match r1 with
              | h1 :: h2 :: h3 :: h4 :: r2 =>
                  match hex4 h1 h2 h3 h4 with
                  | None => None
                  | Some uni =>
                      match scan_units r2 with
                      | Some (t, rest) => Some ((true, uni) :: t, rest)
                      | None => None
                      end
                  end
              | _ => None
              end
            else
              match backslash e with
              | None => None
              | Some ch =>
                  match scan_units r1 with
                  | Some (t, rest) => Some ((false, ch) :: t, rest)
                  | None => None
                  end
              end
        end
      else if (c <? 32)%N then None
      else
        match scan_units r with
        | Some (t, rest) => Some ((false, c) :: t, rest)
        | None => None
        end
  end.

(** Second pass: an escaped high surrogate directly followed by an
    escaped low surrogate is one character. *)
Fixpoint join_surrogates (units : list (bool * N)) : pystr :=
  match units with
  | [] => []
  | (true, hi) :: (((true, lo) :: rest) as tail) =>
      if is_high_surrogate hi && is_low_surrogate lo
      then (65536 + ((hi - 55296) * 1024 + (lo - 56320)))%N
           :: join_surrogates rest
      else hi :: join_surrogates tail
  | (_, c) :: tail => c :: join_surrogates tail
  end.

(** [scanstring]: the decoded contents and the text after the closing
    quote. *)
Definition scanstring (s : pystr) : option (pystr * pystr) :=
  match scan_units s with
  | Some (units, rest) => Some (join_surrogates units, rest)
  | None => None
  end.

(** What the scanner accepts besides strings, objects and arrays. *)
Definition scan_atom (s : pystr) : option (pyval * pystr) :=
  match after_prefix (py "null") s with
  | Some rest => Some (PNone, rest)
  | None =>
  match after_prefix (py "true") s with
  | Some rest => Some (PBool true, rest)
  | None =>
  match after_prefix (py "false") s with
  | Some rest => Some (PBool false, rest)
  | None =>
  match match_number s with
  | Some r => Some r
  | None =>
  match after_prefix (py "NaN") s with
  | Some rest => Some (PFloat FNaN, rest)
  | None =>
  match after_prefix (py "Infinity") s with
  | Some rest => Some (PFloat (FInf false), rest)
  | None =>
  match after_prefix (py "-Infinity") s with
  | Some rest => Some (PFloat (FInf true), rest)
  | None => None
  end end end end end end end.

(** [scan_once] with the loops of [JSONArray] and [JSONObject].
    [array_items] is entered at the first character of an element,
    [object_items] right after the opening quote of a key. *)
Fixpoint scan_once (fuel : nat) (s : pystr) {struct fuel} : outcome pyval :=
  match fuel with
  | O => Starved
  | S f =>
      match s with
      | [] => Invalid
      | c :: r =>
          if (c =? 34)%N then
            match scanstring r with
            | Some (t, rest) => Parsed (PStr t) rest
            | None => Invalid
            end
          else if (c =? 123)%N then
            match skip_ws r with
            | c1 :: r1 =>
                if (c1 =? 125)%N then Parsed (PDict []) r1
                else if (c1 =? 34)%N then
                  match object_items f r1 with
                  | Parsed pairs rest => Parsed (PDict (dict_of_pairs pairs)) rest
                  | Invalid => Invalid
                  | Starved => Starved
                  end
                else Invalid
            | [] => Invalid
            end
          else if (c =? 91)%N then
            match skip_ws r with
            | c1 :: r1 =>
                if (c1 =? 93)%N then Parsed (PList []) r1
                else
                  match array_items f (c1 :: r1) with
                  | Parsed values rest => Parsed (PList values) rest
                  | Invalid => Invalid
                  | Starved => Starved
                  end
            | [] => Invalid
            end
          else
            match scan_atom s with
            | Some (v, rest) => Parsed v rest
            | None => Invalid
            end
      end
  end

with array_items (fuel : nat) (s : pystr) {struct fuel}
  : outcome (list pyval) :=
  match fuel with
  | O => Starved
  | S f =>
      match scan_once f s with
      | Parsed v rest =>
          match skip_ws rest with
          | c :: r =>
              if (c =? 93)%N then Parsed [v] r
              else if (c =? 44)%N then
                match array_items f (skip_ws r) with
                | Parsed vs rest' => Parsed (v :: vs) rest'
                | Invalid => Invalid
                | Starved => Starved
                end
              else Invalid
          | [] => Invalid
          end
      | Invalid => Invalid
      | Starved => Starved
      end
  end

with object_items (fuel : nat) (s : pystr) {struct fuel}
  : outcome (list (pystr * pyval)) :=
  match fuel with
  | O => Starved
  | S f =>
      match scanstring s with
      | None => Invalid
      | Some (key, r0) =>
          match skip_ws r0 with
          | c :: r1 =>
              if (c =? 58)%N then
                match scan_once f (skip_ws r1) with
                | Parsed v rest =>
                    match skip_ws rest with
                    | c2 :: r2 =>
                        if (c2 =? 125)%N then Parsed [(key, v)] r2
                        else if (c2 =? 44)%N then
                          match skip_ws r2 with
                          | q :: r3 =>
                              if (q =? 34)%N then
                                match object_items f r3 with
                                | Parsed kvs rest' =>
                                    Parsed ((key, v) :: kvs) rest'
                                | Invalid => Invalid
                                | Starved => Starved
                                end
                              else Invalid
                          | [] => Invalid
                          end
                        else Invalid
                    | [] => Invalid
                    end
                | Invalid => Invalid
                | Starved => Starved
                end
              else Invalid
          | [] => Invalid
          end
      end
  end.

Definition fuel_for (s : pystr) : nat := S (2 * length s).

(** [json.loads(s)] for a [str] argument: [None] stands for a raised
    [JSONDecodeError]. A leading byte-order mark is refused, whitespace
    is allowed around the single value, anything after it is not. *)
Definition json_loads (s : pystr) : option pyval :=
  match s with
  | 65279%N :: _ => None
  | _ =>
      match scan_once (fuel_for s) (skip_ws s) with
      | Parsed v rest =>
          match skip_ws rest with
          | [] => Some v
          | _ :: _ => None
          end
      | Invalid => None
      | Starved => None
      end
  end.

End Json.
Import Json.

(** ** The data model *)

Record ActionItem : Type := {
  description : pystr;
  owner : pyval;
  due_date : pyval
}.

Record MeetingMinutes : Type := {
  date : pystr;
  summary : list pyval;
  decisions : list pyval;
  action_items : list ActionItem;
  timeline : list pyval;
  transcript : pystr
}.

(** ** [MeetingMinutes.to_markdown] *)

Section Rendering.

(** The text an f-string substitutes for a value, that is Python's
    [format(v, '')]; a [str] is substituted as it is. *)
Variable format_value : pyval -> pystr.

(** [lines.append(x)] and [lines.extend(xs)] *)
Definition append (lines : list pystr) (x : pystr) : list pystr := lines ++ [x].
Definition extend (lines xs : list pystr) : list pystr := lines ++ xs.

Definition bullet (item : pyval) : pystr := py "- " ++ format_value item.

(** The separator typed in the source after the owner: code points
    U+00E2, U+20AC, U+201D between two spaces. *)
Definition owner_separator : pystr := [32; 226; 8364; 8221; 32]%N.

Definition action_line (action : ActionItem) : pystr :=
  let owner_text :=
    if truthy (owner action)
    then format_value (owner action) ++ owner_separator
    else [] in
  let due_text :=
    if truthy (due_date action)
    then py " (due " ++ format_value (due_date action) ++ py ")"
    else [] in
  py "- [ ] " ++ owner_text ++ description action ++ due_text.

(** The list [lines] as it stands before the final join. *)
Definition to_markdown_lines (self : MeetingMinutes) (title : pystr)
  : list pystr :=
  let lines := [py "# " ++ title ++ py " - " ++ date self; []] in
  let lines :=
    match summary self with
    | [] => lines
    | _ :: _ =>
        let lines := append lines (py "## Summary") in
        let lines := extend lines (map bullet (summary self)) in
        append lines []
    end in
  let lines :=
    match decisions self with
    | [] => lines
    | _ :: _ =>
        let lines := append lines (py "## Decisions") in
        let lines := extend lines (map bullet (decisions self)) in
        append lines []
    end in
  let lines :=
    match action_items self with
    | [] => lines
    | _ :: _ =>
        let lines := append lines (py "## Action Items") in
        let lines :=
          fold_left (fun acc action => append acc (action_line action))
            (action_items self) lines in
        append lines []
    end in
  let lines :=
    match timeline self with
    | [] => lines
    | _ :: _ =>
        let lines := append lines (py "## Timeline") in
        let lines := extend lines (map bullet (timeline self)) in
        append lines []
    end in
  let lines := append lines (py "## Full Transcript") in
  append lines (transcript self).

Definition to_markdown (self : MeetingMinutes) (title : pystr) : pystr :=
  strip (join [nl] (to_markdown_lines self title)) ++ [nl].

End Rendering.

(** ** Start-up checks *)

(** [require_api_key]: the value of [OPENAI_API_KEY] once the dotenv
    file is loaded, [None] when the variable is unset. *)
Definition require_api_key (env_key : option pystr) : result pystr :=
  match env_key with
  | Some (c :: k) => Ok (c :: k)
  | _ => Raise (SystemExit (py "Missing OPENAI_API_KEY environment variable."))
  end.

(** ** Audio, chunking and transcription *)

(** [range(0, stop, step)] for a positive step, produced the way the
    loop consumes it. At most [stop] values exist, which bounds the
    recursion. *)
Fixpoint range_from (fuel start stop step : nat) : list nat :=
  match fuel with
  | O => []
  | S f =>
      if start <? stop
      then start :: range_from f (start + step) stop step
      else []
  end.

Definition py_range (stop step : nat) : list nat := range_from stop 0 stop step.

Section Audio.

(** One unit of decoded audio per millisecond: [len(audio)] is a
    duration in milliseconds and slices are taken by millisecond, as
    pydub's [AudioSegment] does. *)
Variable Sample : Type.

Definition AudioSegment : Type := list Sample.

(** [audio[start:stop]] for [0 <= start <= stop]. *)
Definition py_slice (audio : AudioSegment) (start stop : nat) : AudioSegment :=
  firstn (stop - start) (skipn start audio).

(** What [pathlib] reports about the audio path, and what
    [AudioSegment.from_file] decodes from it. *)
Record AudioFile : Type := {
  path_exists : bool;
  path_is_file : bool;
  decoded : AudioSegment
}.

(** [validate_audio_path]; the path that ends each message is left out. *)
Definition validate_audio_path (audio_path : AudioFile) : result AudioFile :=
  if negb (path_exists audio_path)
  then Raise (SystemExit (py "Audio file not found: "))
  else if negb (path_is_file audio_path)
  then Raise (SystemExit (py "Audio path is not a file: "))
  else Ok audio_path.

(** [chunk_audio]: the segments the generator yields, in order. A zero
    step makes [range] raise, a negative one makes it empty. *)
Definition chunk_audio (audio_path : AudioFile) (chunk_seconds : Z)
  : result (list AudioSegment) :=
  let audio := decoded audio_path in
  let stride := (chunk_seconds * 1000)%Z in
  if (stride =? 0)%Z then Raise ValueError
  else if (stride <? 0)%Z then Ok []
  else
    let stride := Z.to_nat stride in
    Ok (map (fun start_ms => py_slice audio start_ms (start_ms + stride))
            (py_range (length audio) stride)).

(** What is uploaded with a transcription request: the original file,
    or one segment exported to a temporary mp3. *)
Inductive upload : Type :=
| WholeFile (f : AudioFile)
| Mp3Export (segment : AudioSegment).

Record transcription_request : Type := {
  req_file : upload;
  req_prompt : option pystr;
  req_language : option pystr
}.

(** [client.audio.transcriptions.create(model="whisper-1", ...)]: the
    text of the response, or the exception the client raises. The answer
    may depend on how many requests were made before this one. *)
Variable whisper : nat -> transcription_request -> result pystr.

(** The loop over the chunks: [calls] counts the requests already made,
    [segments] holds the texts received so far. Returns the requests
    made and the outcome. *)
Fixpoint transcribe_chunks (prompt language : option pystr)
  (chunks : list AudioSegment) (calls : nat) (segments : list pystr)
  : list transcription_request * result (list pystr) :=
  match chunks with
  | [] => ([], Ok segments)
  | segment :: rest =>
      let request := {| req_file := Mp3Export segment;
                        req_prompt := prompt;
                        req_language := language |} in
      match whisper calls request with
      | Raise e => ([request], Raise e)
      | Ok text =>
          let (made, outcome) :=
            transcribe_chunks prompt language rest (S calls)
              (segments ++ [text]) in
          (request :: made, outcome)
      end
  end.

(** [chunk_seconds and chunk_seconds > 0] *)
Definition chunking_enabled (chunk_seconds : option Z) : option Z :=
  match chunk_seconds with
  | Some n => if (n =? 0)%Z then None else if (0 <? n)%Z then Some n else None
  | None => None
  end.

(** [transcribe_audio]: the requests sent to the client, and the
    transcript or the exception that ends the call. *)
Definition transcribe_audio (audio_path : AudioFile)
  (prompt : option pystr) (chunk_seconds : option Z)
  (language : option pystr)
  : list transcription_request * result pystr :=
  match validate_audio_path audio_path with
  | Raise e => ([], Raise e)
  | Ok audio_path =>
      match chunking_enabled chunk_seconds with
      | Some n =>
          match chunk_audio audio_path n with
          | Raise e => ([], Raise e)
          | Ok chunks =>
              let (made, outcome) :=
                transcribe_chunks prompt language chunks 0 [] in
              (made, segments <- outcome ;; Ok (join [nl] segments))
          end
      | None =>
          let request := {| req_file := WholeFile audio_path;
                            req_prompt := prompt;
                            req_language := language |} in
          ([request], whisper 0 request)
      end
  end.

End Audio.

(** ** Extraction of the minutes *)

(** [SYSTEM_PROMPT] *)
Definition SYSTEM_PROMPT : pystr :=
  join [nl]
    [ py "You are a meticulous meeting scribe. Generate concise, structured minutes from a transcript.";
      py "Return only JSON using the following schema:";
      py "{";
      js "  'summary': ['bullet', ...],";
      js "  'decisions': ['decision', ...],";
      js "  'action_items': [";
      js "     {'description': '', 'owner': '', 'due_date': ''}";
      py "  ],";
      js "  'timeline': ['HH:MM:SS topic' , ...]";
      py "}";
      py "Keep bullets crisp and actionable. If data is missing, use empty arrays.";
      [] ].

(** The chat request: model, system message and user message (the
    sampling temperature, fixed at 0.3, is left out). *)
Record chat_request : Type := {
  chat_model : pystr;
  system_content : pystr;
  user_content : pystr
}.

(** The loop over the two candidate texts: [data] keeps its initial
    value when no candidate decodes. *)
Fixpoint first_decodable (candidates : list pystr) (data : pyval) : pyval :=
  match candidates with
  | [] => data
  | candidate :: rest =>
      match json_loads candidate with
      | Some v => v
      | None => first_decodable rest data
      end
  end.

Definition decode_content (content : pystr) : pyval :=
  first_decodable [content; strip_backticks (strip content)] (PDict []).

(** Elements of a value known to be a list. *)
Definition list_items (v : pyval) : list pyval :=
  match v with PList l => l | _ => [] end.

(** [data.get(key, []) if isinstance(data.get(key), list) else []] *)
Definition list_field (data : pyval) (key : pystr) : result (list pyval) :=
  probe <- py_get data key ;;
  if is_list probe
  then v <- py_get_default data key (PList []) ;; Ok (list_items v)
  else Ok [].

(** One round of the comprehension over [raw_actions]: the filter, then
    the [ActionItem] built from an element that passes it. *)
Definition action_item_of (item : pyval) : result (option ActionItem) :=
  if is_dict item then
    d <- py_get item (py "description") ;;
    if truthy d then
      raw <- py_get_default item (py "description") (PStr []) ;;
      desc <- py_strip raw ;;
      o <- py_get item (py "owner") ;;
      dd <- py_get item (py "due_date") ;;
      Ok (Some {| description := desc;
                  owner := or_none o;
                  due_date := or_none dd |})
    else Ok None
  else Ok None.

Fixpoint collect_actions (raw_actions : list pyval) : result (list ActionItem) :=
  match raw_actions with
  | [] => Ok []
  | item :: rest =>
      a <- action_item_of item ;;
      tl <- collect_actions rest ;;
      Ok (match a with Some x => x :: tl | None => tl end)
  end.

(** [content or "{}"] *)
Definition content_or_default (content : option pystr) : pystr :=
  match content with
  | Some (c :: r) => c :: r
  | _ => js "{}"
  end.

(** The fields read off the decoded [data]. *)
Definition minutes_of_data (data : pyval) (transcript meeting_date : pystr)
  : result MeetingMinutes :=
  summary <- list_field data (py "summary") ;;
  decisions <- list_field data (py "decisions") ;;
  raw_actions <- list_field data (py "action_items") ;;
  action_items <- collect_actions raw_actions ;;
  timeline <- list_field data (py "timeline") ;;
  Ok {| date := meeting_date;
        summary := summary;
        decisions := decisions;
        action_items := action_items;
        timeline := timeline;
        transcript := transcript |}.

(** The part of [summarize_transcript] that follows the chat call: from
    the message content to the minutes. *)
Definition minutes_of_content (content : option pystr)
  (transcript meeting_date : pystr) : result MeetingMinutes :=
  let content := content_or_default content in
  let data := decode_content content in
  minutes_of_data data transcript meeting_date.

Section Extraction.

(** [client.chat.completions.create(...)]: the content of the first
    choice's message ([None] when the message has none), or the
    exception the client raises. *)
Variable chat : chat_request -> result (option pystr).

Definition summarize_transcript (transcript model meeting_title
  meeting_date : pystr) : result MeetingMinutes :=
  let request :=
    {| chat_model := model;
       system_content := SYSTEM_PROMPT;
       user_content :=
         py "Meeting: " ++ meeting_title ++ [nl]
         ++ py "Date: " ++ meeting_date ++ [nl]
         ++ py "Transcript:" ++ [nl] ++ transcript |} in
  content <- chat request ;;
  minutes_of_content content transcript meeting_date.

End Extraction.

(** ** [main] *)

Section Main.

Variable Sample : Type.
Variable format_value : pyval -> pystr.
Variable whisper : nat -> transcription_request Sample -> result pystr.
Variable chat : chat_request -> result (option pystr).

Record Args : Type := {
  arg_audio : AudioFile Sample;
  arg_title : pystr;
  arg_date : pystr;
  arg_chunk_seconds : option Z;
  arg_language : option pystr;
  arg_whisper_prompt : option pystr;
  arg_summary_model : pystr
}.

(** [main]: the transcription requests made, and the text written to
    the output file or the exception that ends the run. *)
Definition main (env_key : option pystr) (args : Args)
  : list (transcription_request Sample) * result pystr :=
  match require_api_key env_key with
  | Raise e => ([], Raise e)
  | Ok _ =>
      let (made, outcome) :=
        transcribe_audio whisper (arg_audio args) (arg_whisper_prompt args)
          (arg_chunk_seconds args) (arg_language args) in
      (made,
       transcript <- outcome ;;
       minutes <- summarize_transcript chat transcript (arg_summary_model args)
                    (arg_title args) (arg_date args) ;;
       Ok (to_markdown format_value minutes (arg_title args)))
  end.

End Main.

(** ** Vocabulary of the properties *)

(** A chat client that answers every request with [content]. *)
Definition reply_with (content : pystr) : chat_request -> result (option pystr) :=
  fun _ => Ok (Some content).

(** Minutes with every structured field empty. *)
Definition empty_minutes (transcript meeting_date : pystr) : MeetingMinutes :=
  {| date := meeting_date;
     summary := [];
     decisions := [];
     action_items := [];
     timeline := [];
     transcript := transcript |}.

(** A JSON object wrapped in a fence that carries the language tag, and
    the same object in a bare fence. *)
Definition fenced_json_payload : pystr :=
  py "```json" ++ [nl] ++ js "{'summary':['a']}" ++ [nl] ++ py "```".

Definition bare_fenced_payload : pystr :=
  py "```" ++ [nl] ++ js "{'summary':['a']}" ++ [nl] ++ py "```".

Definition blank_description_payload : pystr :=
  js "{'action_items':[{'description':'  ','owner':'Bob'}]}".

Definition ship_it_item : list (pystr * pyval) :=
  [(py "description", PStr (py "Ship it")); (py "owner", PStr [])].

Definition padded_description_payload : pystr :=
  js "{'action_items':[{'description':'  Ship it ','owner':'Bob'}]}".

(** The slices of [stride] milliseconds starting at the first [count]
    multiples of [stride]. *)
Definition slices (Sample : Type) (audio : AudioSegment Sample)
  (stride count : nat) : list (AudioSegment Sample) :=
  map (fun start_ms => py_slice audio start_ms (start_ms + stride))
      (map (fun k => k * stride) (seq 0 count)).

(** Quotient rounded up. *)
Definition ceil_div (a b : nat) : nat :=
  if a mod b =? 0 then a / b else S (a / b).

(** A section of the rendered document: nothing for an empty body,
    otherwise the heading, the body and a blank line. *)
Definition section_block (heading : pystr) (body : list pystr) : list pystr :=
  match body with
  | [] => []
  | _ :: _ => heading :: body ++ [[]]
  end.

(** Neither the first nor the last character is whitespace. *)
Definition outer_space_free (s : pystr) : Prop :=
  (forall c, hd_error s = Some c -> is_space c = false)
  /\ (forall c, hd_error (rev s) = Some c -> is_space c = false).

(** How an optional text field of a payload element ([field], the
    result of looking the key up) is stored in the [ActionItem]. *)
Definition stored_field (field : option pyval) (stored : pyval) : Prop :=
  (field = None -> stored = PNone)
  /\ (field = Some (PStr []) -> stored = PNone)
  /\ (forall o, o <> [] -> field = Some (PStr o) -> stored = PStr o)
  /\ stored <> PStr [].

Section ChunkFailure.

Variable Sample : Type.

(** The request sent for one chunk. *)
Definition chunk_request (prompt language : option pystr)
  (segment : AudioSegment Sample) : transcription_request Sample :=
  {| req_file := Mp3Export segment;
     req_prompt := prompt;
     req_language := language |}.

(** The client answers the requests for the chunks before the [i]-th and
    raises [e] on the [i]-th. *)
Definition fails_first_at
  (whisper : nat -> transcription_request Sample -> result pystr)
  (prompt language : option pystr) (chunks : list (AudioSegment Sample))
  (i : nat) (e : exn) : Prop :=
  i < length chunks
  /\ (forall k, k < i ->
        exists text,
          whisper k (chunk_request prompt language (nth k chunks [])) = Ok text)
  /\ whisper i (chunk_request prompt language (nth i chunks [])) = Raise e.

(** The exception that ends a run tells which chunk failed: some
    reading [locate] of exceptions returns, for every client, recording
    and chunk length, the index of the first chunk the client refused. *)
Definition error_locates_chunk : Prop :=
  exists locate : exn -> nat,
    forall (whisper : nat -> transcription_request Sample -> result pystr)
           (audio_path : AudioFile Sample) (prompt language : option pystr)
           (n : Z) (chunks : list (AudioSegment Sample)) (i : nat) (e : exn),
      validate_audio_path audio_path = Ok audio_path ->
      (0 < n)%Z ->
      chunk_audio audio_path n = Ok chunks ->
      fails_first_at whisper prompt language chunks i e ->
      exists e',
        snd (transcribe_audio whisper audio_path prompt (Some n) language)
        = Raise e'
        /\ locate e' = i.

End ChunkFailure.

(** A recording of 1001 ms, cut into two chunks by a chunk length of one
    second, and two clients raising the same exception: one on the first
    request, one on the second. *)
Definition two_chunk_recording : AudioFile nat :=
  {| path_exists := true; path_is_file := true; decoded := seq 0 1001 |}.

Definition service_down : exn := ClientError (py "503").

Definition refuse_all : nat -> transcription_request nat -> result pystr :=
  fun _ _ => Raise service_down.

Definition refuse_second : nat -> transcription_request nat -> result pystr :=
  fun calls _ => if calls =? 0 then Ok (py "hello") else Raise service_down.

Definition sample_args (chunk_seconds : option Z) : Args nat :=
  {| arg_audio := two_chunk_recording;
     arg_title := py "Meeting Minutes";
     arg_date := py "2024-01-01";
     arg_chunk_seconds := chunk_seconds;
     arg_language := None;
     arg_whisper_prompt := None;
     arg_summary_model := py "gpt-4o-mini" |}.

(** ** Vocabulary of the further properties *)

(** The request [summarize_transcript] sends to the chat client. *)
Definition extraction_request (transcript model meeting_title
  meeting_date : pystr) : chat_request :=
  {| chat_model := model;
     system_content := SYSTEM_PROMPT;
     user_content :=
       py "Meeting: " ++ meeting_title ++ [nl]
       ++ py "Date: " ++ meeting_date ++ [nl]
       ++ py "Transcript:" ++ [nl] ++ transcript |}.

Definition is_str (v : pyval) : bool :=
  match v with PStr _ => true | _ => false end.

(** An element of [action_items] that passes the filter of the
    comprehension. *)
Definition accepted (item : pyval) : bool :=
  match item with
  | PDict d => truthy (dict_get d (py "description"))
  | _ => false
  end.

(** An element that passes the filter with a description that is not a
    string. *)
Definition unstrippable (item : pyval) : bool :=
  match item with
  | PDict d =>
      truthy (dict_get d (py "description"))
      && negb (is_str (dict_get d (py "description")))
  | _ => false
  end.

(** The [ActionItem] made of an element whose description is a string. *)
Definition built (item : pyval) : ActionItem :=
  match item with
  | PDict d =>
      {| description :=
           match dict_get d (py "description") with
           | PStr s => strip s
           | _ => []
           end;
         owner := or_none (dict_get d (py "owner"));
         due_date := or_none (dict_get d (py "due_date")) |}
  | _ => {| description := []; owner := PNone; due_date := PNone |}
  end.

(** The list stored under [key] in an object, empty when the key is
    missing or holds anything but a list. *)
Definition list_under (d : list (pystr * pyval)) (key : pystr) : list pyval :=
  match dict_lookup d key with
  | Some (PList l) => l
  | _ => []
  end.

(** A text between two fences of three backticks, each on its own line,
    the opening one followed by [tag]. *)
Definition fenced (tag text : pystr) : pystr :=
  py "```" ++ tag ++ [nl] ++ text ++ [nl] ++ py "```".

(** A client that answers the request number [k] with the text [k]
    written in unary. *)
Definition echo_index : nat -> transcription_request nat -> result pystr :=
  fun calls _ => Ok (repeat 73%N (S calls)).

Definition silent_recording : AudioFile nat :=
  {| path_exists := true; path_is_file := true; decoded := [] |}.

Definition missing_recording : AudioFile nat :=
  {| path_exists := false; path_is_file := false; decoded := [] |}.

(** Payloads of the examples of the further properties. *)
Definition mixed_actions_payload : pystr :=
  js "{'summary':'none','decisions':['go'],'action_items':[7,{'description':' Ship it ','owner':0},{'owner':'Al'},['x'],{'description':'Test','due_date':'Friday'}]}".

Definition numeric_description_payload : pystr :=
  js "{'action_items':[{'description':5}]}".

Definition no_content : chat_request -> result (option pystr) :=
  fun _ => Ok None.

(** A scanner result for a text, moved to the text followed by a
    newline. *)
Definition with_newline (A : Type) (r : option (A * pystr))
  : option (A * pystr) :=
  match r with
  | Some (a, rest) => Some (a, rest ++ [nl])
  | None => None
  end.

(** A recording of 1001 ms behind a valid path, transcribed whole. *)
Definition prose_reply : chat_request -> result (option pystr) :=
  reply_with (py "not json at all").

Definition short_recording : AudioFile nat :=
  {| path_exists := true; path_is_file := true; decoded := seq 0 700 |}.

(** * Properties *)

Lemma eqb_eq (a b : pystr) : PyStr.eqb a b = true <-> a = b.
Proof.
  unfold PyStr.eqb. destruct (list_eq_dec N.eq_dec a b); split; congruence.
Qed.

(** ** The decoder never runs out of fuel *)

Ltac break_hyp H :=
  match type of H with
  | context [match ?x with _ => _ end] =>
      let E := fresh "E" in destruct x eqn:E
  end.

Lemma skip_ws_length (s : pystr) : length (skip_ws s) <= length s.
Proof.
  induction s as [|c r IH]; simpl; [lia|].
  destruct (is_ws c); simpl; lia.
Qed.

Lemma skip_ws_cons_length (s r : pystr) (c : N) :
  skip_ws s = c :: r -> S (length r) <= length s.
Proof.
  intros H. pose proof (skip_ws_length s) as L. rewrite H in L. exact L.
Qed.

Lemma take_digits_length (s ds rest : pystr) :
  take_digits s = (ds, rest) -> length rest <= length s.
Proof.
  revert ds rest. induction s as [|c r IH]; simpl; intros ds rest H.
  - inversion H; subst; simpl; lia.
  - destruct (is_digit c).
    + destruct (take_digits r) as [ds' rest'] eqn:E.
      inversion H; subst. specialize (IH _ _ eq_refl). lia.
    + inversion H; subst; simpl; lia.
Qed.

Lemma after_prefix_length (p s rest : pystr) :
  after_prefix p s = Some rest -> length rest <= length s.
Proof.
  revert s rest. induction p as [|a p IH]; simpl; intros s rest H.
  - inversion H; subst; lia.
  - destruct s as [|c s']; [discriminate|].
    destruct (N.eqb a c); [|discriminate].
    apply IH in H. simpl; lia.
Qed.

Lemma match_integer_length (s ids rest : pystr) (neg : bool) :
  match_integer s = Some (neg, ids, rest) -> length rest <= length s.
Proof.
  unfold match_integer. intros H.
  assert (G : forall s1 : pystr,
             match s1 with
             | [] => None
             | c :: r =>
                 if (c =? 48)%N then Some (neg, [c], r)
                 else if is_digit c
                      then let (ds, rest0) := take_digits r in
                           Some (neg, c :: ds, rest0)
                      else None
             end = Some (neg, ids, rest) -> length rest <= length s1).
  { intros [|c r] G; [discriminate|].
    destruct (c =? 48)%N.
    - inversion G; subst; simpl; lia.
    - destruct (is_digit c); [|discriminate].
      destruct (take_digits r) as [ds rest0] eqn:E.
      inversion G; subst. apply take_digits_length in E. simpl; lia. }
  destruct s as [|c r].
  - discriminate.
  - destruct (c =? 45)%N.
    + destruct r as [|c' r']; [discriminate|].
      assert (L := G (c' :: r')). simpl in L.
      destruct (c' =? 48)%N.
      * inversion H; subst. simpl; lia.
      * destruct (is_digit c'); [|discriminate].
        destruct (take_digits r') as [ds rest0] eqn:E.
        inversion H; subst. apply take_digits_length in E. simpl; lia.
    + assert (L := G (c :: r)). simpl in L.
      destruct (c =? 48)%N.
      * inversion H; subst. simpl; lia.
      * destruct (is_digit c); [|discriminate].
        destruct (take_digits r) as [ds rest0] eqn:E.
        inversion H; subst. apply take_digits_length in E. simpl; lia.
Qed.

Lemma match_frac_length (s fds rest : pystr) :
  match_frac s = (fds, rest) -> length rest <= length s.
Proof.
  unfold match_frac. intros H. destruct s as [|c r].
  - inversion H; subst; lia.
  - destruct (c =? 46)%N.
    + destruct (take_digits r) as [ds rest0] eqn:E.
      apply take_digits_length in E.
      destruct ds; inversion H; subst; simpl; lia.
    + inversion H; subst; lia.
Qed.

Lemma match_exp_length (s rest : pystr) (ex : option Z) :
  match_exp s = (ex, rest) -> length rest <= length s.
Proof.
  unfold match_exp. intros H. destruct s as [|c r].
  - inversion H; subst; lia.
  - destruct ((c =? 101) || (c =? 69))%N.
    + destruct r as [|sg r'].
      * simpl in H. inversion H; subst; simpl; lia.
      * destruct (sg =? 45)%N.
        { destruct (take_digits r') as [ds rest0] eqn:E.
          apply take_digits_length in E.
          destruct ds; inversion H; subst; simpl; lia. }
        destruct (sg =? 43)%N.
        { destruct (take_digits r') as [ds rest0] eqn:E.
          apply take_digits_length in E.
          destruct ds; inversion H; subst; simpl; lia. }
        destruct (take_digits (sg :: r')) as [ds rest0] eqn:E.
        apply take_digits_length in E.
        destruct ds; inversion H; subst; simpl in *; lia.
    + inversion H; subst; lia.
Qed.

Lemma match_number_length (s rest : pystr) (v : pyval) :
  match_number s = Some (v, rest) -> length rest <= length s.
Proof.
  unfold match_number. intros H.
  destruct (match_integer s) as [[[neg ids] r1]|] eqn:E1; [|discriminate].
  destruct (match_frac r1) as [fds r2] eqn:E2.
  destruct (match_exp r2) as [ex r3] eqn:E3.
  apply match_integer_length in E1.
  apply match_frac_length in E2.
  apply match_exp_length in E3.
  destruct fds; destruct ex; inversion H; subst; lia.
Qed.

Lemma scan_atom_length (s rest : pystr) (v : pyval) :
  scan_atom s = Some (v, rest) -> length rest <= length s.
Proof.
  unfold scan_atom. intros H.
  repeat (break_hyp H;
          [ first [ inversion H; subst;
                    first [ eapply after_prefix_length; eassumption
                          | eapply match_number_length; eassumption ]
                  | idtac ] | ]).
  all: try discriminate.
Qed.

Lemma scan_units_length_bounded (n : nat) :
  forall s t rest,
    length s <= n -> scan_units s = Some (t, rest) -> length rest < length s.
Proof.
  induction n as [|n IH]; intros s t rest Hn H.
  - destruct s; [discriminate | simpl in Hn; lia].
  - destruct s as [|c r]; [discriminate|].
    simpl in Hn. cbn [scan_units] in H.
    destruct (c =? 34)%N.
    { inversion H; subst; simpl; lia. }
    destruct (c =? 92)%N.
    + destruct r as [|e r1]; [discriminate|].
      simpl in Hn.
      destruct (e =? 117)%N.
      * destruct r1 as [|h1 [|h2 [|h3 [|h4 r2]]]]; try discriminate.
        simpl in Hn.
        destruct (hex4 h1 h2 h3 h4) as [uni|]; [|discriminate].
        destruct (scan_units r2) as [[t' rest']|] eqn:P; [|discriminate].
        inversion H; subst.
        apply (IH r2 t' rest) in P; [simpl; lia | lia].
      * destruct (backslash e); [|discriminate].
        destruct (scan_units r1) as [[t' rest']|] eqn:P; [|discriminate].
        inversion H; subst.
        apply (IH r1 t' rest) in P; [simpl; lia | lia].
    + destruct (c <? 32)%N; [discriminate|].
      destruct (scan_units r) as [[t' rest']|] eqn:P; [|discriminate].
      inversion H; subst.
      apply (IH r t' rest) in P; [simpl; lia | lia].
Qed.

Lemma scanstring_length (s t rest : pystr) :
  scanstring s = Some (t, rest) -> length rest < length s.
Proof.
  unfold scanstring. intros H.
  destruct (scan_units s) as [[units rest']|] eqn:E; [|discriminate].
  inversion H; subst.
  apply (scan_units_length_bounded (n := length s)) in E; lia.
Qed.

Lemma scan_length (f : nat) :
  (forall s v rest, scan_once f s = Parsed v rest -> length rest <= length s)
  /\ (forall s vs rest,
        array_items f s = Parsed vs rest -> length rest <= length s)
  /\ (forall s kvs rest,
        object_items f s = Parsed kvs rest -> length rest <= length s).
Proof.
  induction f as [|f [IHv [IHa IHo]]].
  - repeat split; intros; discriminate.
  - repeat split.
    + intros s v rest H. cbn [scan_once] in H.
      destruct s as [|c r]; [discriminate|].
      destruct (c =? 34)%N.
      { destruct (scanstring r) as [[t rest']|] eqn:E; [|discriminate].
        inversion H; subst. apply scanstring_length in E. simpl; lia. }
      destruct (c =? 123)%N.
      { destruct (skip_ws r) as [|c1 r1] eqn:W; [discriminate|].
        apply skip_ws_cons_length in W.
        destruct (c1 =? 125)%N; [inversion H; subst; simpl; lia|].
        destruct (c1 =? 34)%N; [|discriminate].
        destruct (object_items f r1) as [pairs rest'| |] eqn:E;
          try discriminate.
        inversion H; subst. apply IHo in E. simpl; lia. }
      destruct (c =? 91)%N.
      { destruct (skip_ws r) as [|c1 r1] eqn:W; [discriminate|].
        apply skip_ws_cons_length in W.
        destruct (c1 =? 93)%N; [inversion H; subst; simpl; lia|].
        destruct (array_items f (c1 :: r1)) as [values rest'| |] eqn:E;
          try discriminate.
        inversion H; subst. apply IHa in E. simpl in *; lia. }
      destruct (scan_atom (c :: r)) as [[v' rest']|] eqn:E; [|discriminate].
      inversion H; subst. apply scan_atom_length in E. exact E.
    + intros s vs rest H. cbn [array_items] in H.
      destruct (scan_once f s) as [v rest0| |] eqn:E; try discriminate.
      apply IHv in E.
      destruct (skip_ws rest0) as [|c r] eqn:W; [discriminate|].
      apply skip_ws_cons_length in W.
      destruct (c =? 93)%N; [inversion H; subst; lia|].
      destruct (c =? 44)%N; [|discriminate].
      destruct (array_items f (skip_ws r)) as [vs' rest'| |] eqn:A;
        try discriminate.
      inversion H; subst. apply IHa in A.
      pose proof (skip_ws_length r). lia.
    + intros s kvs rest H. cbn [object_items] in H.
      destruct (scanstring s) as [[key r0]|] eqn:K; [|discriminate].
      apply scanstring_length in K.
      destruct (skip_ws r0) as [|c r1] eqn:W0; [discriminate|].
      apply skip_ws_cons_length in W0.
      destruct (c =? 58)%N; [|discriminate].
      destruct (scan_once f (skip_ws r1)) as [v rest0| |] eqn:E;
        try discriminate.
      apply IHv in E. pose proof (skip_ws_length r1).
      destruct (skip_ws rest0) as [|c2 r2] eqn:W2; [discriminate|].
      apply skip_ws_cons_length in W2.
      destruct (c2 =? 125)%N; [inversion H; subst; lia|].
      destruct (c2 =? 44)%N; [|discriminate].
      destruct (skip_ws r2) as [|q r3] eqn:W3; [discriminate|].
      apply skip_ws_cons_length in W3.
      destruct (q =? 34)%N; [|discriminate].
      destruct (object_items f r3) as [kvs' rest'| |] eqn:O;
        try discriminate.
      inversion H; subst. apply IHo in O. lia.
Qed.

Lemma scan_never_starved (f : nat) :
  (forall s, 2 * length s < f -> scan_once f s <> Starved)
  /\ (forall s, 2 * length s + 1 < f -> array_items f s <> Starved)
  /\ (forall s, 2 * length s + 1 < f -> object_items f s <> Starved).
Proof.
  induction f as [|f [IHv [IHa IHo]]].
  - repeat split; intros; lia.
  - destruct (scan_length f) as [Lv [La Lo]].
    repeat split.
    + intros s Hf. cbn [scan_once].
      destruct s as [|c r]; [discriminate|]. simpl in Hf.
      destruct (c =? 34)%N.
      { destruct (scanstring r) as [[t rest']|]; discriminate. }
      destruct (c =? 123)%N.
      { destruct (skip_ws r) as [|c1 r1] eqn:W; [discriminate|].
        apply skip_ws_cons_length in W.
        destruct (c1 =? 125)%N; [discriminate|].
        destruct (c1 =? 34)%N; [|discriminate].
        destruct (object_items f r1) as [pairs rest'| |] eqn:E;
          try discriminate.
        exfalso. apply (IHo r1); [lia | exact E]. }
      destruct (c =? 91)%N.
      { destruct (skip_ws r) as [|c1 r1] eqn:W; [discriminate|].
        apply skip_ws_cons_length in W.
        destruct (c1 =? 93)%N; [discriminate|].
        destruct (array_items f (c1 :: r1)) as [values rest'| |] eqn:E;
          try discriminate.
        exfalso. apply (IHa (c1 :: r1)); [simpl; lia | exact E]. }
      destruct (scan_atom (c :: r)) as [[v' rest']|]; discriminate.
    + intros s Hf. cbn [array_items].
      destruct (scan_once f s) as [v rest0| |] eqn:E.
      * apply Lv in E.
        destruct (skip_ws rest0) as [|c r] eqn:W; [discriminate|].
        apply skip_ws_cons_length in W.
        destruct (c =? 93)%N; [discriminate|].
        destruct (c =? 44)%N; [|discriminate].
        destruct (array_items f (skip_ws r)) as [vs' rest'| |] eqn:A;
          try discriminate.
        exfalso. apply (IHa (skip_ws r)); [|exact A].
        pose proof (skip_ws_length r). lia.
      * discriminate.
      * exfalso. apply (IHv s); [lia | exact E].
    + intros s Hf. cbn [object_items].
      destruct (scanstring s) as [[key r0]|] eqn:K; [|discriminate].
      apply scanstring_length in K.
      destruct (skip_ws r0) as [|c r1] eqn:W0; [discriminate|].
      apply skip_ws_cons_length in W0.
      destruct (c =? 58)%N; [|discriminate].
      pose proof (skip_ws_length r1).
      destruct (scan_once f (skip_ws r1)) as [v rest0| |] eqn:E.
      * apply Lv in E.
        destruct (skip_ws rest0) as [|c2 r2] eqn:W2; [discriminate|].
        apply skip_ws_cons_length in W2.
        destruct (c2 =? 125)%N; [discriminate|].
        destruct (c2 =? 44)%N; [|discriminate].
        destruct (skip_ws r2) as [|q r3] eqn:W3; [discriminate|].
        apply skip_ws_cons_length in W3.
        destruct (q =? 34)%N; [|discriminate].
        destruct (object_items f r3) as [kvs' rest'| |] eqn:O;
          try discriminate.
        exfalso. apply (IHo r3); [lia | exact O].
      * discriminate.
      * exfalso. apply (IHv (skip_ws r1)); [lia | exact E].
Qed.

(** The fuel [json_loads] hands to the scanner is enough for any text:
    a [None] from [json_loads] is always a decoding error. *)
Lemma scan_once_enough_fuel (s : pystr) :
  scan_once (fuel_for s) (skip_ws s) <> Starved.
Proof.
  apply (proj1 (scan_never_starved (fuel_for s))).
  unfold fuel_for. pose proof (skip_ws_length s). lia.
Qed.

(** ** Decoding of the extraction payload *)

(** The fallback chain of [decode_content]: the text as it is, then the
    text stripped of outer whitespace and backticks, then the empty
    object. *)
Lemma decode_content_chain (content : pystr) :
  decode_content content =
  match json_loads content with
  | Some v => v
  | None =>
      match json_loads (strip_backticks (strip content)) with
      | Some v => v
      | None => PDict []
      end
  end.
Proof. reflexivity. Qed.


(** A payload that decodes to anything but an object makes the first
    [data.get] raise. *)
Lemma non_object_data_raises (data : pyval) (transcript meeting_date : pystr) :
  is_dict data = false ->
  minutes_of_data data transcript meeting_date = Raise AttributeError.
Proof. destruct data; simpl; intros H; try reflexivity; discriminate. Qed.

(** C1 (evaluation at the failing inputs): when the chat client answers
    with a bare JSON list, or a bare number, [summarize_transcript] does
    not return minutes with empty fields; it raises [AttributeError]. *)
Theorem non_object_payload_raises
  (transcript model meeting_title meeting_date : pystr) :
  summarize_transcript (reply_with (js "[]")) transcript model meeting_title
    meeting_date = Raise AttributeError
  /\ summarize_transcript (reply_with (js "1")) transcript model meeting_title
       meeting_date = Raise AttributeError.
Proof. split; vm_compute; reflexivity. Qed.

(** The same object in a fence without language tag is decoded on the
    second attempt. *)
Lemma bare_fence_is_unwrapped (transcript meeting_date : pystr) :
  json_loads bare_fenced_payload = None
  /\ minutes_of_content (Some bare_fenced_payload) transcript meeting_date
     = Ok {| date := meeting_date;
             summary := [PStr (py "a")];
             decisions := [];
             action_items := [];
             timeline := [];
             transcript := transcript |}.
Proof. split; vm_compute; reflexivity. Qed.

(** C2 (evaluation at the failing input): for the payload fenced with
    [```json], the first decode fails, the stripped text still starts
    with the tag [json] and fails too, and the minutes come out with an
    empty summary instead of ["a"]. *)
Theorem tagged_fence_is_not_unwrapped
  (transcript model meeting_title meeting_date : pystr) :
  json_loads fenced_json_payload = None
  /\ strip_backticks (strip fenced_json_payload)
     = py "json" ++ [nl] ++ js "{'summary':['a']}" ++ [nl]
  /\ json_loads (strip_backticks (strip fenced_json_payload)) = None
  /\ summarize_transcript (reply_with fenced_json_payload) transcript model
       meeting_title meeting_date
     = Ok (empty_minutes transcript meeting_date).
Proof. repeat split; vm_compute; reflexivity. Qed.

(** C3 (evaluation at the failing input): an element whose description
    is two spaces passes the filter, which tests the description before
    it is stripped, and is retained with an empty description. *)
Theorem blank_description_is_retained
  (transcript model meeting_title meeting_date : pystr) :
  summarize_transcript (reply_with blank_description_payload) transcript model
    meeting_title meeting_date
  = Ok {| date := meeting_date;
          summary := [];
          decisions := [];
          action_items := [ {| description := [];
                               owner := PStr (py "Bob");
                               due_date := PNone |} ];
          timeline := [];
          transcript := transcript |}.
Proof. vm_compute; reflexivity. Qed.

(** C9: for the payload [{}], every structured field of the minutes is
    empty, the date is the caller's meeting date and the transcript is
    the transcript handed in. *)
Theorem empty_object_payload
  (transcript model meeting_title meeting_date : pystr) :
  summarize_transcript (reply_with (js "{}")) transcript model meeting_title
    meeting_date
  = Ok {| date := meeting_date;
          summary := [];
          decisions := [];
          action_items := [];
          timeline := [];
          transcript := transcript |}.
Proof. vm_compute; reflexivity. Qed.

(** ** Stripping *)

Lemma lstrip_head (p : N -> bool) (s : pystr) (c : N) :
  hd_error (lstrip p s) = Some c -> p c = false.
Proof.
  induction s as [|a r IH]; simpl; [discriminate|].
  destruct (p a) eqn:E; [exact IH|].
  simpl. intros H. inversion H; subst. exact E.
Qed.

Lemma lstrip_suffix (p : N -> bool) (s : pystr) :
  exists dropped, s = dropped ++ lstrip p s.
Proof.
  induction s as [|a r [dropped IH]]; simpl.
  - exists []. reflexivity.
  - destruct (p a).
    + exists (a :: dropped). simpl. congruence.
    + exists []. reflexivity.
Qed.

Lemma hd_error_rev_app (a b : pystr) (c : N) :
  hd_error (rev b) = Some c -> hd_error (rev (a ++ b)) = Some c.
Proof.
  rewrite rev_app_distr. destruct (rev b); simpl; [discriminate | trivial].
Qed.

(** What [strip] returns has no whitespace at either end. *)
Lemma strip_by_outer (p : N -> bool) (s : pystr) :
  (forall c, hd_error (strip_by p s) = Some c -> p c = false)
  /\ (forall c, hd_error (rev (strip_by p s)) = Some c -> p c = false).
Proof.
  unfold strip_by, rstrip. split; intros c H.
  - destruct (lstrip_suffix p (rev (lstrip p s))) as [dropped E].
    apply (lstrip_head p s).
    rewrite <- (rev_involutive (lstrip p s)), E.
    apply hd_error_rev_app. exact H.
  - rewrite rev_involutive in H. apply (lstrip_head _ _ H).
Qed.

Lemma strip_outer_space_free (s : pystr) : outer_space_free (strip s).
Proof. exact (strip_by_outer is_space s). Qed.

(** ** Action items *)

Lemma or_none_stored (field : option pyval) :
  stored_field field
    (or_none (match field with Some v => v | None => PNone end)).
Proof.
  unfold stored_field, or_none. repeat split.
  - intros ->. reflexivity.
  - intros ->. reflexivity.
  - intros o Ho ->. destruct o; [congruence | reflexivity].
  - destruct field as [v|]; [|discriminate].
    destruct (truthy v) eqn:T; [|discriminate].
    intros ->. discriminate.
Qed.

(** What the comprehension makes of an element that is an object. *)
Lemma action_item_of_dict (d : list (pystr * pyval)) :
  action_item_of (PDict d) =
  if truthy (dict_get d (py "description"))
  then desc <- py_strip (dict_get_default d (py "description") (PStr [])) ;;
       Ok (Some {| description := desc;
                   owner := or_none (dict_get d (py "owner"));
                   due_date := or_none (dict_get d (py "due_date")) |})
  else Ok None.
Proof.
  unfold action_item_of. cbn [is_dict py_get py_get_default bind].
  destruct (truthy (dict_get d (py "description"))); [|reflexivity].
  destruct (py_strip _); reflexivity.
Qed.

(** An element is retained only if it is an object whose description is
    a non-empty string, and then with that description stripped. *)
Lemma action_item_of_retained (item : pyval) (a : ActionItem) :
  action_item_of item = Ok (Some a) ->
  exists d s,
    item = PDict d
    /\ dict_lookup d (py "description") = Some (PStr s)
    /\ s <> []
    /\ description a = strip s
    /\ owner a = or_none (dict_get d (py "owner"))
    /\ due_date a = or_none (dict_get d (py "due_date")).
Proof.
  destruct item as [| | | | |l|d]; try discriminate.
  rewrite action_item_of_dict.
  unfold dict_get, dict_get_default.
  destruct (dict_lookup d (py "description")) as [v|] eqn:L;
    [|discriminate].
  destruct (truthy v) eqn:T; [|discriminate].
  destruct v as [| | | |s| |]; try discriminate.
  cbn [py_strip bind]. intros H. inversion H; subst; clear H.
  exists d, s. cbn [description owner due_date].
  split; [reflexivity|]. split; [exact L|].
  split; [intros ->; discriminate|].
  repeat split; reflexivity.
Qed.

Lemma collect_actions_In (items : list pyval) :
  forall acts a,
    collect_actions items = Ok acts -> In a acts ->
    exists item, In item items /\ action_item_of item = Ok (Some a).
Proof.
  induction items as [|item rest IH]; intros acts a H Hin.
  - inversion H; subst. contradiction.
  - cbn [collect_actions] in H.
    destruct (action_item_of item) as [o|] eqn:E; [|discriminate].
    cbn [bind] in H.
    destruct (collect_actions rest) as [tl|] eqn:R; [|discriminate].
    cbn [bind] in H. inversion H; subst; clear H.
    destruct o as [x|].
    + destruct Hin as [->|Hin].
      * exists item. split; [left; reflexivity | exact E].
      * destruct (IH tl a eq_refl Hin) as [it [I1 I2]].
        exists it. split; [right; exact I1 | exact I2].
    + destruct (IH tl a eq_refl Hin) as [it [I1 I2]].
      exists it. split; [right; exact I1 | exact I2].
Qed.

(** Where the action items of returned minutes come from. *)
Lemma minutes_of_data_actions (data : pyval) (transcript meeting_date : pystr)
  (m : MeetingMinutes) :
  minutes_of_data data transcript meeting_date = Ok m ->
  exists d,
    data = PDict d
    /\ collect_actions
         (match dict_lookup d (py "action_items") with
          | Some (PList items) => items
          | _ => []
          end) = Ok (action_items m).
Proof.
  destruct data as [| | | | | |d]; try discriminate.
  intros H. exists d. split; [reflexivity|].
  unfold minutes_of_data, list_field in H.
  cbn [py_get py_get_default bind] in H.
  unfold dict_get, dict_get_default in H.
  repeat match type of H with
  | context [dict_lookup d ?k] =>
      let o := fresh "o" in let L := fresh "L" in
      destruct (dict_lookup d k) as [o|] eqn:L;
      [destruct o|]; cbn [is_list list_items bind] in H
  end;
  repeat match type of H with
  | context [collect_actions ?l] =>
      let R := fresh "R" in
      destruct (collect_actions l) eqn:R; cbn [bind] in H
  end;
  try discriminate; inversion H; subst; cbn [action_items];
  first [ assumption | reflexivity ].
Qed.

(** C7: an element that is an object with a non-empty string
    description is retained; the item keeps the description (stripped),
    an owner or due date that is missing or present as an empty string
    is stored as [None], one that is a non-empty string is stored as it
    is, and no empty string is ever stored in either field. *)
Theorem empty_owner_and_due_date_are_absent
  (d : list (pystr * pyval)) (s : pystr) :
  dict_lookup d (py "description") = Some (PStr s) ->
  s <> [] ->
  exists a,
    collect_actions [PDict d] = Ok [a]
    /\ description a = strip s
    /\ stored_field (dict_lookup d (py "owner")) (owner a)
    /\ stored_field (dict_lookup d (py "due_date")) (due_date a).
Proof.
  intros L Hs.
  exists {| description := strip s;
            owner := or_none (dict_get d (py "owner"));
            due_date := or_none (dict_get d (py "due_date")) |}.
  split.
  - cbn [collect_actions]. rewrite action_item_of_dict.
    unfold dict_get at 1. unfold dict_get_default. rewrite L.
    destruct s as [|c r]; [congruence|]. reflexivity.
  - cbn [description owner due_date]. split; [reflexivity|].
    split; apply or_none_stored.
Qed.

Lemma empty_owner_and_due_date_are_absent_witness :
  exists a,
    collect_actions [PDict ship_it_item] = Ok [a]
    /\ description a = strip (py "Ship it")
    /\ stored_field (dict_lookup ship_it_item (py "owner")) (owner a)
    /\ stored_field (dict_lookup ship_it_item (py "due_date")) (due_date a).
Proof.
  apply (@empty_owner_and_due_date_are_absent ship_it_item (py "Ship it")).
  - vm_compute. reflexivity.
  - discriminate.
Defined.

(** The element of the example, through the whole extraction. *)
Example ship_it_extracted (transcript meeting_date : pystr) :
  minutes_of_content
    (Some (js "{'action_items':[{'description':'Ship it','owner':''}]}"))
    transcript meeting_date
  = Ok {| date := meeting_date;
          summary := [];
          decisions := [];
          action_items := [ {| description := py "Ship it";
                               owner := PNone;
                               due_date := PNone |} ];
          timeline := [];
          transcript := transcript |}.
Proof. vm_compute; reflexivity. Qed.

(** No returned action item stores an empty string as owner or due
    date. *)
Lemma no_empty_owner_or_due_date (content : option pystr)
  (transcript meeting_date : pystr) (m : MeetingMinutes) (a : ActionItem) :
  minutes_of_content content transcript meeting_date = Ok m ->
  In a (action_items m) ->
  owner a <> PStr [] /\ due_date a <> PStr [].
Proof.
  unfold minutes_of_content. intros H Hin.
  destruct (@minutes_of_data_actions _ _ _ _ H) as [data [_ C]].
  destruct (@collect_actions_In _ _ _ C Hin) as [item [_ A]].
  destruct (@action_item_of_retained _ _ A) as [d [s [_ [_ [_ [_ [O D]]]]]]].
  rewrite O, D. unfold or_none.
  split.
  - destruct (truthy (dict_get d (py "owner"))) eqn:T; [|discriminate].
    intros E. rewrite E in T. discriminate.
  - destruct (truthy (dict_get d (py "due_date"))) eqn:T; [|discriminate].
    intros E. rewrite E in T. discriminate.
Qed.

(** C10: every action item of the returned minutes comes from an element
    of the payload's [action_items] list whose description is a string,
    and stores that description stripped: it has no whitespace at either
    end. *)
Theorem retained_description_is_stripped (content : option pystr)
  (transcript meeting_date : pystr) (m : MeetingMinutes) (a : ActionItem) :
  minutes_of_content content transcript meeting_date = Ok m ->
  In a (action_items m) ->
  exists data items d s,
    decode_content (content_or_default content) = PDict data
    /\ dict_lookup data (py "action_items") = Some (PList items)
    /\ In (PDict d) items
    /\ dict_lookup d (py "description") = Some (PStr s)
    /\ description a = strip s
    /\ outer_space_free (description a).
Proof.
  unfold minutes_of_content. intros H Hin.
  destruct (@minutes_of_data_actions _ _ _ _ H) as [data [E C]].
  destruct (@collect_actions_In _ _ _ C Hin) as [item [I A]].
  destruct (@action_item_of_retained _ _ A) as [d [s [-> [L [_ [D _]]]]]].
  destruct (dict_lookup data (py "action_items")) as [v|] eqn:LA;
    [|contradiction].
  destruct v as [| | | | |items|]; try contradiction.
  exists data, items, d, s.
  repeat split; try assumption; try reflexivity;
    rewrite D; apply strip_outer_space_free.
Qed.

Lemma retained_description_is_stripped_witness :
  exists data items d s,
    decode_content (content_or_default (Some padded_description_payload))
    = PDict data
    /\ dict_lookup data (py "action_items") = Some (PList items)
    /\ In (PDict d) items
    /\ dict_lookup d (py "description") = Some (PStr s)
    /\ py "Ship it" = strip s
    /\ outer_space_free (py "Ship it").
Proof.
  apply (@retained_description_is_stripped
           (Some padded_description_payload) (py "hello") (py "2024-01-01")
           {| date := py "2024-01-01";
              summary := [];
              decisions := [];
              action_items := [ {| description := py "Ship it";
                                   owner := PStr (py "Bob");
                                   due_date := PNone |} ];
              timeline := [];
              transcript := py "hello" |}
           {| description := py "Ship it";
              owner := PStr (py "Bob");
              due_date := PNone |}).
  - vm_compute. reflexivity.
  - left. reflexivity.
Defined.

(** The date and the transcript of returned minutes are the caller's. *)
Lemma context_fields (content : option pystr) (text meeting_date : pystr)
  (m : MeetingMinutes) :
  minutes_of_content content text meeting_date = Ok m ->
  date m = meeting_date /\ transcript m = text.
Proof.
  unfold minutes_of_content, minutes_of_data. intros H.
  repeat match type of H with
  | context [bind ?r _] => destruct r; cbn [bind] in H
  end; try discriminate.
  inversion H; subst. split; reflexivity.
Qed.

(** ** Rendering *)

Lemma fold_left_append (A : Type) (f : A -> pystr) (l : list A)
  (lines : list pystr) :
  fold_left (fun acc x => append acc (f x)) l lines = lines ++ map f l.
Proof.
  revert lines. induction l as [|x l IH]; intros lines; simpl.
  - rewrite app_nil_r. reflexivity.
  - rewrite IH. unfold append. rewrite <- app_assoc. reflexivity.
Qed.

Lemma lstrip_keeps_last (p : N -> bool) (l : pystr) (c : N) :
  p c = false -> lstrip p (l ++ [c]) <> [].
Proof.
  intros Hc. induction l as [|a l IH]; simpl.
  - rewrite Hc. discriminate.
  - destruct (p a); [exact IH | discriminate].
Qed.

Lemma strip_by_nonempty (p : N -> bool) (c : N) (s : pystr) :
  p c = false -> strip_by p (c :: s) <> [].
Proof.
  intros Hc. unfold strip_by, rstrip. cbn [lstrip]. rewrite Hc.
  cbn [rev]. intros E.
  apply (f_equal (@rev N)) in E. rewrite rev_involutive in E.
  exact (@lstrip_keeps_last p (rev s) c Hc E).
Qed.

Section RenderingFacts.

Variable format_value : pyval -> pystr.

Lemma to_markdown_lines_layout (self : MeetingMinutes) (title : pystr) :
  to_markdown_lines format_value self title
  = [py "# " ++ title ++ py " - " ++ date self; []]
    ++ section_block (py "## Summary")
         (map (bullet format_value) (summary self))
    ++ section_block (py "## Decisions")
         (map (bullet format_value) (decisions self))
    ++ section_block (py "## Action Items")
         (map (action_line format_value) (action_items self))
    ++ section_block (py "## Timeline")
         (map (bullet format_value) (timeline self))
    ++ [py "## Full Transcript"; transcript self].
Proof.
  unfold to_markdown_lines.
  rewrite fold_left_append. unfold append, extend, section_block.
  destruct (summary self), (decisions self), (action_items self),
    (timeline self);
    cbn [map app]; repeat (rewrite <- app_assoc; cbn [app]); reflexivity.
Qed.

Lemma joined_lines_start (self : MeetingMinutes) (title : pystr) :
  exists tail,
    join [nl] (to_markdown_lines format_value self title) = 35%N :: tail.
Proof.
  rewrite to_markdown_lines_layout.
  change (py "# ") with [35%N; 32%N].
  cbn [app join]. eexists. reflexivity.
Qed.

End RenderingFacts.

(** C8: the lines of the document are the title line and a blank line,
    then one block per non-empty list in the order Summary, Decisions,
    Action Items, Timeline (an empty list contributes nothing), then the
    Full Transcript heading and the transcript, whatever it is. The
    document is these lines joined and stripped, followed by one
    newline: it is not empty before that newline and the character
    before it is not whitespace. When the four lists are empty the
    document is the title line, a blank line, the Full Transcript
    heading and the transcript. *)
Theorem to_markdown_layout (format_value : pyval -> pystr)
  (self : MeetingMinutes) (title : pystr) :
  to_markdown_lines format_value self title
  = [py "# " ++ title ++ py " - " ++ date self; []]
    ++ section_block (py "## Summary")
         (map (bullet format_value) (summary self))
    ++ section_block (py "## Decisions")
         (map (bullet format_value) (decisions self))
    ++ section_block (py "## Action Items")
         (map (action_line format_value) (action_items self))
    ++ section_block (py "## Timeline")
         (map (bullet format_value) (timeline self))
    ++ [py "## Full Transcript"; transcript self]
  /\ (exists body,
        to_markdown format_value self title = body ++ [nl]
        /\ body = strip (join [nl] (to_markdown_lines format_value self title))
        /\ body <> []
        /\ (forall c, hd_error (rev body) = Some c -> is_space c = false))
  /\ (summary self = [] -> decisions self = [] ->
      action_items self = [] -> timeline self = [] ->
      to_markdown format_value self title
      = strip (py "# " ++ title ++ py " - " ++ date self ++ [nl; nl]
               ++ py "## Full Transcript" ++ [nl] ++ transcript self)
        ++ [nl]).
Proof.
  split; [apply to_markdown_lines_layout|]. split.
  - exists (strip (join [nl] (to_markdown_lines format_value self title))).
    split; [reflexivity|]. split; [reflexivity|]. split.
    + destruct (joined_lines_start format_value self title) as [tail ->].
      apply strip_by_nonempty. reflexivity.
    + apply strip_by_outer.
  - intros Hs Hd Ha Ht. unfold to_markdown.
    rewrite to_markdown_lines_layout, Hs, Hd, Ha, Ht.
    cbn [map section_block app join].
    repeat rewrite <- app_assoc. reflexivity.
Qed.

Lemma to_markdown_layout_witness :
  to_markdown (fun _ => []) (empty_minutes (py "hello") (py "2024-01-01"))
    (py "Standup")
  = py "# Standup - 2024-01-01" ++ [nl; nl] ++ py "## Full Transcript"
    ++ [nl] ++ py "hello" ++ [nl].
Proof.
  rewrite (proj2 (proj2 (to_markdown_layout (fun _ => [])
                           (empty_minutes (py "hello") (py "2024-01-01"))
                           (py "Standup")))
             eq_refl eq_refl eq_refl eq_refl).
  vm_compute. reflexivity.
Defined.

(** With an empty transcript the heading is still there, followed by the
    closing newline. *)
Example empty_transcript_rendered :
  to_markdown (fun _ => []) (empty_minutes [] (py "2024-01-01")) (py "Standup")
  = py "# Standup - 2024-01-01" ++ [nl; nl] ++ py "## Full Transcript" ++ [nl].
Proof. vm_compute. reflexivity. Qed.

(** ** Chunking *)

Lemma ceil_div_bounds (a b : nat) :
  0 < b ->
  a <= ceil_div a b * b /\ ceil_div a b * b < a + b.
Proof.
  intros Hb. unfold ceil_div.
  pose proof (Nat.div_mod_eq a b) as E.
  pose proof (Nat.mod_upper_bound a b ltac:(lia)) as U.
  set (q := a / b) in *. set (r := a mod b) in *. clearbody q r.
  destruct (Nat.eqb_spec r 0) as [Hr|Hr]; nia.
Qed.

Lemma ceil_div_unique (a b q : nat) :
  0 < b -> a <= q * b -> q * b < a + b -> q = ceil_div a b.
Proof.
  intros Hb H1 H2. destruct (ceil_div_bounds a Hb) as [C1 C2]. nia.
Qed.

Lemma ceil_step (start stop step c : nat) :
  0 < step -> start < stop ->
  stop - (start + step) <= c * step ->
  c * step < stop - (start + step) + step ->
  stop - start <= S c * step /\ S c * step < stop - start + step.
Proof.
  intros Hs Lt B1 B2.
  assert (D : stop - (start + step) = stop - start - step) by lia.
  rewrite D in *. set (d := stop - start) in *.
  assert (0 < d) by (unfold d; lia). clearbody d.
  destruct (Nat.le_gt_cases d step) as [Le|Gt].
  - replace (d - step) with 0 in * by lia.
    assert (c = 0) by nia. subst. lia.
  - assert (exists e, d = step + e) as [e ->] by (exists (d - step); lia).
    replace (step + e - step) with e in * by lia. lia.
Qed.

Lemma ceil_step_lower (start stop step c : nat) :
  0 < step -> start < stop ->
  stop - (start + step) <= c * step ->
  c * step < stop - (start + step) + step ->
  stop - start <= S c * step.
Proof. intros. eapply ceil_step; eassumption. Qed.

Lemma ceil_step_upper (start stop step c : nat) :
  0 < step -> start < stop ->
  stop - (start + step) <= c * step ->
  c * step < stop - (start + step) + step ->
  S c * step < stop - start + step.
Proof. intros. eapply ceil_step; eassumption. Qed.

(** The starts produced by the loop are the multiples of the step below
    the stop, as many as the rounded-up quotient. *)
Lemma range_from_multiples (step : nat) :
  0 < step ->
  forall fuel start stop,
    stop - start <= fuel ->
    range_from fuel start stop step
    = map (fun k => start + k * step) (seq 0 (ceil_div (stop - start) step)).
Proof.
  intros Hs. induction fuel as [|f IH]; intros start stop Hf.
  - assert (E : stop - start = 0) by lia. rewrite E.
    replace (ceil_div 0 step) with 0; [reflexivity|].
    apply ceil_div_unique; lia.
  - cbn [range_from]. destruct (Nat.ltb_spec start stop) as [Lt|Ge].
    + rewrite IH by lia.
      replace (ceil_div (stop - start) step)
        with (S (ceil_div (stop - (start + step)) step)).
      * cbn [seq map]. rewrite Nat.add_0_r. f_equal.
        rewrite <- seq_shift, map_map. apply map_ext. intros k. lia.
      * destruct (ceil_div_bounds (stop - (start + step)) Hs) as [B1 B2].
        set (c := ceil_div (stop - (start + step)) step) in *. clearbody c.
        apply ceil_div_unique; [exact Hs | apply ceil_step_lower
                                         | apply ceil_step_upper];
          assumption.
    + replace (stop - start) with 0 by lia.
      replace (ceil_div 0 step) with 0; [reflexivity|].
      apply ceil_div_unique; lia.
Qed.

Lemma py_range_multiples (stop step : nat) :
  0 < step ->
  py_range stop step = map (fun k => k * step) (seq 0 (ceil_div stop step)).
Proof.
  intros Hs. unfold py_range.
  rewrite range_from_multiples by lia.
  rewrite Nat.sub_0_r. reflexivity.
Qed.

Lemma firstn_plus (A : Type) (n m : nat) (l : list A) :
  firstn (n + m) l = firstn n l ++ firstn m (skipn n l).
Proof.
  revert l. induction n as [|n IH]; intros l; [reflexivity|].
  destruct l as [|x l]; simpl.
  - rewrite firstn_nil. reflexivity.
  - rewrite IH. reflexivity.
Qed.

Lemma nth_map_seq (A : Type) (f : nat -> A) (count i : nat) (d : A) :
  i < count -> nth i (map f (seq 0 count)) d = f i.
Proof.
  intros Hi.
  rewrite (nth_indep _ d (f 0)) by (rewrite length_map, length_seq; exact Hi).
  rewrite map_nth, seq_nth by exact Hi. reflexivity.
Qed.

Section ChunkingFacts.

Variable Sample : Type.

Lemma slices_length (audio : AudioSegment Sample) (stride count : nat) :
  length (slices audio stride count) = count.
Proof. unfold slices. rewrite !length_map, length_seq. reflexivity. Qed.

Lemma slices_nth (audio : AudioSegment Sample) (stride count i : nat) :
  i < count ->
  nth i (slices audio stride count) []
  = firstn stride (skipn (i * stride) audio).
Proof.
  intros Hi. unfold slices. rewrite map_map.
  rewrite nth_map_seq by exact Hi. unfold py_slice. f_equal. lia.
Qed.

Lemma slices_concat (audio : AudioSegment Sample) (stride count : nat) :
  concat (slices audio stride count) = firstn (count * stride) audio.
Proof.
  unfold slices. induction count as [|k IH]; [reflexivity|].
  rewrite seq_S, !map_app, concat_app, IH. cbn [map concat plus].
  rewrite app_nil_r. unfold py_slice.
  replace (k * stride + stride - k * stride) with stride by lia.
  replace (S k * stride) with (k * stride + stride) by lia.
  symmetry. apply firstn_plus.
Qed.

End ChunkingFacts.

Lemma slices_last (Sample : Type) (audio : AudioSegment Sample)
  (stride k : nat) :
  last (slices audio stride (S k)) []
  = firstn stride (skipn (k * stride) audio).
Proof.
  unfold slices. rewrite seq_S, !map_app. cbn [map plus].
  rewrite last_last. unfold py_slice. f_equal. lia.
Qed.

Lemma chunk_audio_slices (Sample : Type) (audio_path : AudioFile Sample)
  (chunk_seconds : Z) :
  (0 < chunk_seconds)%Z ->
  chunk_audio audio_path chunk_seconds
  = Ok (slices (decoded audio_path) (Z.to_nat (chunk_seconds * 1000))
          (ceil_div (length (decoded audio_path))
             (Z.to_nat (chunk_seconds * 1000)))).
Proof.
  intros Hpos. unfold chunk_audio.
  destruct (Z.eqb_spec (chunk_seconds * 1000) 0) as [E|_]; [lia|].
  destruct (Z.ltb_spec (chunk_seconds * 1000) 0) as [E|_]; [lia|].
  rewrite py_range_multiples by lia. reflexivity.
Qed.

(** C5: for a positive chunk length, with [stride] its value in
    milliseconds and [L] the length of the recording, [chunk_audio]
    yields the rounded-up quotient of [L] by [stride] chunks; chunk [i]
    is the slice that starts at [i * stride], so the chunks come in
    ascending order of start, each begins where the previous one ends,
    and put end to end they are the recording; every chunk but the last
    has length [stride], the last has length [L mod stride], or [stride]
    when that is zero, and ends at [L]; no chunk is empty; an empty
    recording yields no chunk. *)
Theorem chunk_audio_partition (Sample : Type) (audio_path : AudioFile Sample)
  (chunk_seconds : Z) :
  (0 < chunk_seconds)%Z ->
  let L := length (decoded audio_path) in
  let stride := Z.to_nat (chunk_seconds * 1000) in
  exists chunks,
    chunk_audio audio_path chunk_seconds = Ok chunks
    /\ length chunks = ceil_div L stride
    /\ concat chunks = decoded audio_path
    /\ (forall i, i < length chunks ->
          nth i chunks []
          = py_slice (decoded audio_path) (i * stride) (i * stride + stride)
          /\ length (nth i chunks []) = Nat.min stride (L - i * stride)
          /\ 0 < length (nth i chunks []))
    /\ (forall i, S i < length chunks -> length (nth i chunks []) = stride)
    /\ (0 < length chunks ->
          length (last chunks [])
          = (if L mod stride =? 0 then stride else L mod stride)
          /\ (length chunks - 1) * stride + length (last chunks []) = L)
    /\ (L = 0 -> chunks = []).
Proof.
  intros Hpos L stride.
  assert (Hs : 0 < stride) by (unfold stride; lia).
  destruct (ceil_div_bounds L Hs) as [B1 B2].
  exists (slices (decoded audio_path) stride (ceil_div L stride)).
  split; [apply chunk_audio_slices; exact Hpos|].
  rewrite slices_length.
  assert (Len : forall i, i < ceil_div L stride ->
            length (firstn stride (skipn (i * stride) (decoded audio_path)))
            = Nat.min stride (L - i * stride)).
  { intros i Hi. rewrite length_firstn, length_skipn. reflexivity. }
  split; [reflexivity|]. split.
  { rewrite slices_concat. apply firstn_all2. exact B1. }
  split.
  { intros i Hi. rewrite slices_nth by exact Hi.
    split; [unfold py_slice; f_equal; lia|].
    rewrite Len by exact Hi. split; [reflexivity|]. nia. }
  split.
  { intros i Hi. rewrite slices_nth by lia. rewrite Len by lia. nia. }
  split.
  { intros Hc. destruct (ceil_div L stride) as [|k] eqn:C; [lia|].
    rewrite slices_last, Len by lia.
    unfold ceil_div in C.
    pose proof (Nat.div_mod_eq L stride) as E.
    pose proof (Nat.mod_upper_bound L stride ltac:(lia)) as U.
    set (q := L / stride) in *. set (r := L mod stride) in *.
    clearbody q r.
    destruct (Nat.eqb_spec r 0) as [Hr|Hr].
    - subst q. split; nia.
    - assert (k = q) by lia. subst k. split; nia. }
  intros HL. replace (ceil_div L stride) with 0; [reflexivity|].
  apply ceil_div_unique; lia.
Qed.

Lemma chunk_audio_partition_witness :
  exists chunks,
    chunk_audio two_chunk_recording 1 = Ok chunks
    /\ length chunks = 2
    /\ concat chunks = seq 0 1001.
Proof.
  destruct (@chunk_audio_partition nat two_chunk_recording 1 ltac:(lia))
    as [chunks [H1 [H2 [H3 _]]]].
  exists chunks. split; [exact H1|]. split; [|exact H3].
  rewrite H2. vm_compute. reflexivity.
Defined.

(** ** Transcription *)

Section TranscriptionFacts.

Variable Sample : Type.
Variable whisper : nat -> transcription_request Sample -> result pystr.

(** C6: with a valid audio path and a chunk length that is absent, zero
    or negative, [transcribe_audio] makes exactly one request, which
    uploads the whole file, and returns what the client answers. *)
Theorem no_chunking_single_request (audio_path : AudioFile Sample)
  (prompt : option pystr) (chunk_seconds : option Z)
  (language : option pystr) :
  path_exists audio_path = true ->
  path_is_file audio_path = true ->
  chunk_seconds = None
  \/ (exists n, chunk_seconds = Some n /\ (n <= 0)%Z) ->
  transcribe_audio whisper audio_path prompt chunk_seconds language
  = ([ {| req_file := WholeFile audio_path;
          req_prompt := prompt;
          req_language := language |} ],
     whisper 0 {| req_file := WholeFile audio_path;
                  req_prompt := prompt;
                  req_language := language |}).
Proof.
  intros He Hf Hc. unfold transcribe_audio, validate_audio_path.
  rewrite He, Hf. cbn [negb].
  replace (chunking_enabled chunk_seconds) with (@None Z); [reflexivity|].
  destruct Hc as [->|[n [-> Hn]]]; [reflexivity|].
  unfold chunking_enabled.
  destruct (Z.eqb_spec n 0); [reflexivity|].
  destruct (Z.ltb_spec 0 n); [lia | reflexivity].
Qed.

(** The loop stops at the first request the client refuses. *)
Lemma transcribe_chunks_failure (prompt language : option pystr) (e : exn) :
  forall (chunks : list (AudioSegment Sample)) (i calls : nat)
         (segments : list pystr),
    i < length chunks ->
    (forall k, k < i ->
       exists text,
         whisper (calls + k) (chunk_request prompt language (nth k chunks []))
         = Ok text) ->
    whisper (calls + i) (chunk_request prompt language (nth i chunks []))
    = Raise e ->
    transcribe_chunks whisper prompt language chunks calls segments
    = (map (chunk_request prompt language) (firstn (S i) chunks), Raise e).
Proof.
  induction chunks as [|segment rest IH]; intros i calls segments Hi Hok Hfail.
  - simpl in Hi. lia.
  - cbn [transcribe_chunks].
    fold (chunk_request prompt language segment).
    destruct i as [|i].
    + rewrite Nat.add_0_r in Hfail. cbn [nth] in Hfail.
      rewrite Hfail. reflexivity.
    + destruct (Hok 0 ltac:(lia)) as [text Ht].
      rewrite Nat.add_0_r in Ht. cbn [nth] in Ht. rewrite Ht.
      rewrite (IH i (S calls) (segments ++ [text])).
      * reflexivity.
      * simpl in Hi. lia.
      * intros k Hk. destruct (Hok (S k) ltac:(lia)) as [t Hkt].
        exists t. cbn [nth] in Hkt.
        replace (S calls + k) with (calls + S k) by lia. exact Hkt.
      * cbn [nth] in Hfail.
        replace (S calls + i) with (calls + S i) by lia. exact Hfail.
Qed.

Lemma transcribe_audio_chunk_failure (audio_path : AudioFile Sample)
  (prompt language : option pystr) (n : Z)
  (chunks : list (AudioSegment Sample)) (i : nat) (e : exn) :
  validate_audio_path audio_path = Ok audio_path ->
  (0 < n)%Z ->
  chunk_audio audio_path n = Ok chunks ->
  fails_first_at whisper prompt language chunks i e ->
  transcribe_audio whisper audio_path prompt (Some n) language
  = (map (chunk_request prompt language) (firstn (S i) chunks), Raise e).
Proof.
  intros Hv Hn Hc [Hi [Hok Hfail]]. unfold transcribe_audio.
  rewrite Hv. unfold chunking_enabled.
  destruct (Z.eqb_spec n 0); [lia|].
  destruct (Z.ltb_spec 0 n); [|lia].
  rewrite Hc.
  rewrite (@transcribe_chunks_failure prompt language e chunks i 0 []
             Hi Hok Hfail).
  reflexivity.
Qed.

Variable format_value : pyval -> pystr.
Variable chat : chat_request -> result (option pystr).

(** C4, as the code has it: when the client refuses the request for a
    chunk, no request is made for the later chunks, [main] ends with the
    exception the client raised, unchanged, and writes no document,
    whatever the chat client would have answered. *)
Theorem chunk_failure_aborts (env_key : option pystr) (args : Args Sample)
  (n : Z) (chunks : list (AudioSegment Sample)) (i : nat) (e : exn) :
  (exists key, require_api_key env_key = Ok key) ->
  validate_audio_path (arg_audio args) = Ok (arg_audio args) ->
  arg_chunk_seconds args = Some n ->
  (0 < n)%Z ->
  chunk_audio (arg_audio args) n = Ok chunks ->
  fails_first_at whisper (arg_whisper_prompt args) (arg_language args)
    chunks i e ->
  main format_value whisper chat env_key args
  = (map (chunk_request (arg_whisper_prompt args) (arg_language args))
       (firstn (S i) chunks),
     Raise e).
Proof.
  intros [key Hk] Hv Hcs Hn Hc Hf. unfold main.
  rewrite Hk, Hcs.
  rewrite (transcribe_audio_chunk_failure Hv Hn Hc Hf).
  reflexivity.
Qed.

End TranscriptionFacts.

Lemma no_chunking_single_request_witness :
  transcribe_audio refuse_second two_chunk_recording None (Some 0%Z) None
  = ([ {| req_file := WholeFile two_chunk_recording;
          req_prompt := None;
          req_language := None |} ],
     Ok (py "hello")).
Proof.
  apply (@no_chunking_single_request nat refuse_second two_chunk_recording
           None (Some 0%Z) None eq_refl eq_refl).
  right. exists 0%Z. split; [reflexivity | lia].
Defined.

Lemma two_chunks :
  chunk_audio two_chunk_recording 1
  = Ok (slices (seq 0 1001) 1000 2).
Proof. vm_compute. reflexivity. Qed.

Lemma refuse_all_fails_first :
  fails_first_at refuse_all None None (slices (seq 0 1001) 1000 2) 0
    service_down.
Proof.
  split; [rewrite slices_length; lia|].
  split; [intros k Hk; lia | reflexivity].
Qed.

Lemma refuse_second_fails_second :
  fails_first_at refuse_second None None (slices (seq 0 1001) 1000 2) 1
    service_down.
Proof.
  split; [rewrite slices_length; lia|].
  split; [|reflexivity].
  intros k Hk. exists (py "hello").
  destruct k; [reflexivity | lia].
Qed.

Lemma chunk_failure_aborts_witness :
  main (fun _ => []) refuse_second (reply_with (js "{}"))
    (Some (py "sk-test")) (sample_args (Some 1%Z))
  = (map (chunk_request None None) (firstn 2 (slices (seq 0 1001) 1000 2)),
     Raise service_down).
Proof.
  apply (@chunk_failure_aborts nat refuse_second (fun _ => [])
           (reply_with (js "{}")) (Some (py "sk-test"))
           (sample_args (Some 1%Z)) 1%Z (slices (seq 0 1001) 1000 2) 1
           service_down).
  - exists (py "sk-test"). reflexivity.
  - reflexivity.
  - reflexivity.
  - lia.
  - exact two_chunks.
  - exact refuse_second_fails_second.
Defined.

(** C4, as stated, fails: two runs over the same recording end with the
    same exception although the client refused the first chunk in one
    and the second chunk in the other, so the exception does not tell
    the index of the failing chunk. *)
Lemma error_does_not_locate_chunk : ~ error_locates_chunk nat.
Proof.
  intros [locate H].
  destruct (H refuse_all two_chunk_recording None None 1%Z
              (slices (seq 0 1001) 1000 2) 0 service_down
              eq_refl (eq_refl : (0 < 1)%Z) two_chunks refuse_all_fails_first)
    as [e0 [R0 L0]].
  destruct (H refuse_second two_chunk_recording None None 1%Z
              (slices (seq 0 1001) 1000 2) 1 service_down
              eq_refl (eq_refl : (0 < 1)%Z) two_chunks refuse_second_fails_second)
    as [e1 [R1 L1]].
  rewrite (transcribe_audio_chunk_failure (whisper := refuse_all)
             (audio_path := two_chunk_recording) eq_refl (eq_refl : (0 < 1)%Z)
             two_chunks refuse_all_fails_first) in R0.
  rewrite (transcribe_audio_chunk_failure (whisper := refuse_second)
             (audio_path := two_chunk_recording) eq_refl (eq_refl : (0 < 1)%Z)
             two_chunks refuse_second_fails_second) in R1.
  cbn [snd] in R0, R1.
  inversion R0; subst e0. inversion R1; subst e1.
  rewrite L0 in L1. discriminate.
Qed.

(** * Further properties *)

(** ** Transcription, continued *)

Section TranscriptionRuns.

Variable Sample : Type.
Variable whisper : nat -> transcription_request Sample -> result pystr.

Lemma validate_audio_path_cases (audio_path : AudioFile Sample) :
  (path_exists audio_path = true /\ path_is_file audio_path = true
   /\ validate_audio_path audio_path = Ok audio_path)
  \/ ((path_exists audio_path = false \/ path_is_file audio_path = false)
      /\ exists msg, validate_audio_path audio_path = Raise (SystemExit msg)).
Proof.
  unfold validate_audio_path.
  destruct (path_exists audio_path), (path_is_file audio_path); cbn [negb];
    first [ left; repeat split; reflexivity
          | right; split; [auto | eexists; reflexivity] ].
Qed.

Lemma chunking_enabled_positive (n : Z) :
  (0 < n)%Z -> chunking_enabled (Some n) = Some n.
Proof.
  intros Hn. unfold chunking_enabled.
  destruct (Z.eqb_spec n 0); [lia|].
  destruct (Z.ltb_spec 0 n); [reflexivity | lia].
Qed.


(** When every request is answered, the loop sends one request per
    chunk and appends the answers in order. *)
Lemma transcribe_chunks_success (prompt language : option pystr)
  (texts : nat -> pystr) :
  forall (chunks : list (AudioSegment Sample)) (calls : nat)
         (segments : list pystr),
    (forall k, k < length chunks ->
       whisper (calls + k) (chunk_request prompt language (nth k chunks []))
       = Ok (texts (calls + k))) ->
    transcribe_chunks whisper prompt language chunks calls segments
    = (map (chunk_request prompt language) chunks,
       Ok (segments
           ++ map (fun k => texts (calls + k)) (seq 0 (length chunks)))).
Proof.
  induction chunks as [|segment rest IH]; intros calls segments Hok.
  - cbn. rewrite app_nil_r. reflexivity.
  - cbn [transcribe_chunks].
    fold (chunk_request prompt language segment).
    pose proof (Hok 0 ltac:(simpl; lia)) as H0.
    rewrite Nat.add_0_r in H0. cbn [nth] in H0. rewrite H0.
    rewrite (IH (S calls) (segments ++ [texts calls])).
    + cbn [map length seq]. rewrite Nat.add_0_r.
      rewrite <- seq_shift, map_map, <- app_assoc. cbn [app].
      do 4 f_equal. apply map_ext. intros k. f_equal. lia.
    + intros k Hk. pose proof (Hok (S k) ltac:(simpl; lia)) as Hk'.
      cbn [nth] in Hk'.
      replace (S calls + k) with (calls + S k) by lia. exact Hk'.
Qed.

(** X1: with chunking enabled and a client that answers every chunk,
    [transcribe_audio] sends exactly one request per chunk, in chunk
    order, each carrying the prompt and the language unchanged, and
    returns the answers joined by newlines in chunk order. *)
Theorem chunked_transcription_in_order (audio_path : AudioFile Sample)
  (prompt language : option pystr) (n : Z)
  (chunks : list (AudioSegment Sample)) (texts : nat -> pystr) :
  validate_audio_path audio_path = Ok audio_path ->
  (0 < n)%Z ->
  chunk_audio audio_path n = Ok chunks ->
  (forall k, k < length chunks ->
     whisper k (chunk_request prompt language (nth k chunks []))
     = Ok (texts k)) ->
  transcribe_audio whisper audio_path prompt (Some n) language
  = (map (chunk_request prompt language) chunks,
     Ok (join [nl] (map texts (seq 0 (length chunks))))).
Proof.
  intros Hv Hn Hc Hok. unfold transcribe_audio.
  rewrite Hv, (chunking_enabled_positive Hn), Hc.
  rewrite (@transcribe_chunks_success prompt language texts chunks 0 []).
  - reflexivity.
  - exact Hok.
Qed.

(** X2: with chunking enabled, an empty recording makes
    [transcribe_audio] send no request at all and return the empty
    transcript. *)
Theorem empty_recording_no_request (audio_path : AudioFile Sample)
  (prompt language : option pystr) (n : Z) :
  validate_audio_path audio_path = Ok audio_path ->
  (0 < n)%Z ->
  decoded audio_path = [] ->
  transcribe_audio whisper audio_path prompt (Some n) language = ([], Ok []).
Proof.
  intros Hv Hn He. unfold transcribe_audio.
  rewrite Hv, (chunking_enabled_positive Hn).
  rewrite (chunk_audio_slices audio_path Hn), He. cbn [length].
  replace (ceil_div 0 (Z.to_nat (n * 1000))) with 0; [reflexivity|].
  apply ceil_div_unique; lia.
Qed.




End TranscriptionRuns.

Lemma chunked_transcription_in_order_witness :
  transcribe_audio echo_index two_chunk_recording None (Some 1%Z) None
  = (map (chunk_request None None) (slices (seq 0 1001) 1000 2),
     Ok (py "I" ++ [nl] ++ py "II")).
Proof.
  apply (@chunked_transcription_in_order nat echo_index two_chunk_recording
           None None 1%Z (slices (seq 0 1001) 1000 2)
           (fun k => repeat 73%N (S k)) eq_refl eq_refl two_chunks).
  intros k Hk. reflexivity.
Defined.

Lemma empty_recording_no_request_witness :
  transcribe_audio echo_index silent_recording None (Some 30%Z) None
  = ([], Ok []).
Proof.
  apply (@empty_recording_no_request nat echo_index silent_recording
           None None 30%Z eq_refl eq_refl eq_refl).
Defined.


(** ** Extraction, continued *)

Lemma summarize_transcript_request
  (chat : chat_request -> result (option pystr))
  (text model meeting_title meeting_date : pystr) :
  summarize_transcript chat text model meeting_title meeting_date
  = (content <- chat (extraction_request text model meeting_title
                        meeting_date) ;;
     minutes_of_content content text meeting_date).
Proof. reflexivity. Qed.

Lemma list_field_dict (d : list (pystr * pyval)) (key : pystr) :
  list_field (PDict d) key = Ok (list_under d key).
Proof.
  unfold list_field, list_under. cbn [py_get py_get_default bind].
  unfold dict_get, dict_get_default.
  destruct (dict_lookup d key) as [v|]; [destruct v|]; reflexivity.
Qed.

Lemma action_item_of_cases (item : pyval) :
  action_item_of item =
  if unstrippable item then Raise AttributeError
  else if accepted item then Ok (Some (built item))
  else Ok None.
Proof.
  destruct item as [| | | | | |d]; try reflexivity.
  rewrite action_item_of_dict. unfold unstrippable, accepted, built.
  unfold dict_get_default, dict_get.
  destruct (dict_lookup d (py "description")) as [v|]; [|reflexivity].
  destruct (truthy v) eqn:T; [|reflexivity].
  destruct v; try reflexivity; discriminate.
Qed.

Lemma collect_actions_cases (items : list pyval) :
  collect_actions items =
  if existsb unstrippable items then Raise AttributeError
  else Ok (map built (filter accepted items)).
Proof.
  induction items as [|item rest IH]; [reflexivity|].
  cbn [collect_actions existsb filter]. rewrite action_item_of_cases, IH.
  destruct (unstrippable item) eqn:U; [reflexivity|]. cbn [orb].
  destruct (accepted item); cbn [bind];
    destruct (existsb unstrippable rest); reflexivity.
Qed.

(** X4: when the payload decodes to an object and no accepted element
    of [action_items] has a non-string description, the minutes are
    returned: summary, decisions and timeline are the lists stored under
    those keys, as they are, or empty when the key is missing or holds
    anything but a list; the action items are made, in payload order,
    of the elements that are objects with a truthy description, every
    other element being dropped. *)
Theorem object_payload_minutes (content : option pystr)
  (text meeting_date : pystr) (d : list (pystr * pyval)) :
  decode_content (content_or_default content) = PDict d ->
  existsb unstrippable (list_under d (py "action_items")) = false ->
  minutes_of_content content text meeting_date
  = Ok {| date := meeting_date;
          summary := list_under d (py "summary");
          decisions := list_under d (py "decisions");
          action_items :=
            map built (filter accepted (list_under d (py "action_items")));
          timeline := list_under d (py "timeline");
          transcript := text |}.
Proof.
  intros Hd Hu. unfold minutes_of_content, minutes_of_data.
  rewrite Hd, !list_field_dict. cbn [bind].
  rewrite collect_actions_cases, Hu. reflexivity.
Qed.

(** X5: when the payload decodes to an object whose [action_items]
    list holds an object with a truthy description that is not a string
    (a number, [true], a non-empty list or object), the call of [strip]
    on it raises [AttributeError] and no minutes are returned. *)
Theorem nonstring_description_raises (content : option pystr)
  (text meeting_date : pystr) (d : list (pystr * pyval)) :
  decode_content (content_or_default content) = PDict d ->
  existsb unstrippable (list_under d (py "action_items")) = true ->
  minutes_of_content content text meeting_date = Raise AttributeError.
Proof.
  intros Hd Hu. unfold minutes_of_content, minutes_of_data.
  rewrite Hd, !list_field_dict. cbn [bind].
  rewrite collect_actions_cases, Hu. reflexivity.
Qed.


(** X6: when the message of the chat completion has no content, or an
    empty one, the minutes are returned with every structured field
    empty. *)
Theorem missing_content_defaults
  (chat : chat_request -> result (option pystr))
  (text model meeting_title meeting_date : pystr) :
  chat (extraction_request text model meeting_title meeting_date) = Ok None
  \/ chat (extraction_request text model meeting_title meeting_date)
     = Ok (Some []) ->
  summarize_transcript chat text model meeting_title meeting_date
  = Ok (empty_minutes text meeting_date).
Proof.
  intros H. rewrite summarize_transcript_request.
  destruct H as [-> | ->]; reflexivity.
Qed.


Lemma object_payload_minutes_witness :
  minutes_of_content (Some mixed_actions_payload) (py "hello")
    (py "2024-01-01")
  = Ok {| date := py "2024-01-01";
          summary := [];
          decisions := [PStr (py "go")];
          action_items :=
            [ {| description := py "Ship it";
                 owner := PNone;
                 due_date := PNone |};
              {| description := py "Test";
                 owner := PNone;
                 due_date := PStr (py "Friday") |} ];
          timeline := [];
          transcript := py "hello" |}.
Proof.
  rewrite (@object_payload_minutes (Some mixed_actions_payload) (py "hello")
             (py "2024-01-01")
             (match decode_content mixed_actions_payload with
              | PDict d => d
              | _ => []
              end)).
  - vm_compute. reflexivity.
  - vm_compute. reflexivity.
  - vm_compute. reflexivity.
Defined.

Lemma nonstring_description_raises_witness :
  minutes_of_content (Some numeric_description_payload) (py "hello")
    (py "2024-01-01")
  = Raise AttributeError.
Proof.
  apply (@nonstring_description_raises (Some numeric_description_payload)
           (py "hello") (py "2024-01-01")
           [(py "action_items",
             PList [PDict [(py "description", PInt 5)]])]).
  - vm_compute. reflexivity.
  - vm_compute. reflexivity.
Defined.

Lemma missing_content_defaults_witness :
  summarize_transcript no_content (py "hello") (py "gpt-4o-mini")
    (py "Standup") (py "2024-01-01")
  = Ok (empty_minutes (py "hello") (py "2024-01-01")).
Proof.
  apply (@missing_content_defaults no_content).
  left. reflexivity.
Defined.


(** ** Rendering, continued *)

Lemma join_app_last (sep x : pystr) (parts : list pystr) :
  parts <> [] -> join sep (parts ++ [x]) = join sep parts ++ sep ++ x.
Proof.
  induction parts as [|p rest IH]; [congruence|]. intros _.
  destruct rest as [|q rest]; [reflexivity|].
  change (join sep ((p :: q :: rest) ++ [x]))
    with (p ++ sep ++ join sep ((q :: rest) ++ [x])).
  rewrite IH by discriminate.
  change (join sep (p :: q :: rest)) with (p ++ sep ++ join sep (q :: rest)).
  rewrite <- !app_assoc. reflexivity.
Qed.

Lemma lstrip_stops (p : N -> bool) (c : N) (s t : pystr) :
  p c = false -> lstrip p (s ++ c :: t) = lstrip p s ++ c :: t.
Proof.
  intros Hc. induction s as [|a s IH]; cbn [app lstrip].
  - rewrite Hc. reflexivity.
  - destruct (p a); [exact IH | reflexivity].
Qed.

(** Right-stripping does not reach past a character it keeps. *)
Lemma rstrip_stops (p : N -> bool) (c : N) (s t : pystr) :
  p c = false -> rstrip p (s ++ c :: t) = s ++ c :: rstrip p t.
Proof.
  intros Hc. unfold rstrip.
  rewrite rev_app_distr. cbn [rev]. rewrite <- app_assoc. cbn [app].
  rewrite (@lstrip_stops p c (rev t) (rev s) Hc).
  rewrite rev_app_distr. cbn [rev]. rewrite rev_involutive, <- app_assoc.
  reflexivity.
Qed.

(** Stripping a text that starts with a character it keeps stops, on the
    right, at the last character it keeps. *)
Lemma strip_between (first c : N) (tail a y : pystr) :
  a = first :: tail ->
  is_space first = false ->
  is_space c = false ->
  strip (a ++ c :: y) = a ++ c :: rstrip is_space y.
Proof.
  intros -> Hf Hc. unfold strip, strip_by.
  cbn [app lstrip]. rewrite Hf.
  change (first :: tail ++ c :: y) with ((first :: tail) ++ c :: y).
  apply rstrip_stops. exact Hc.
Qed.

(** X8: the final [strip] of [to_markdown] removes nothing but
    whitespace at the end of the transcript (and the newline before a
    blank transcript): the document is every line before the
    transcript, joined by newlines and unchanged, then the newline and
    the transcript stripped on the right, then one newline. *)
Theorem to_markdown_trims_transcript_only (format_value : pyval -> pystr)
  (self : MeetingMinutes) (title : pystr) :
  to_markdown format_value self title
  = join [nl] (removelast (to_markdown_lines format_value self title))
    ++ rstrip is_space (nl :: transcript self) ++ [nl].
Proof.
  unfold to_markdown. rewrite to_markdown_lines_layout.
  assert (JP : exists tail,
             join [nl]
               ([py "# " ++ title ++ py " - " ++ date self; []]
                ++ section_block (py "## Summary")
                     (map (bullet format_value) (summary self))
                ++ section_block (py "## Decisions")
                     (map (bullet format_value) (decisions self))
                ++ section_block (py "## Action Items")
                     (map (action_line format_value) (action_items self))
                ++ section_block (py "## Timeline")
                     (map (bullet format_value) (timeline self)))
             = 35%N :: tail).
  { change (py "# ") with [35%N; 32%N]. cbn [app join].
    eexists. reflexivity. }
  set (hdr := py "# " ++ title ++ py " - " ++ date self) in *.
  set (s1 := section_block (py "## Summary") _) in *.
  set (s2 := section_block (py "## Decisions") _) in *.
  set (s3 := section_block (py "## Action Items") _) in *.
  set (s4 := section_block (py "## Timeline") _) in *.
  set (P := [hdr; []] ++ s1 ++ s2 ++ s3 ++ s4) in *.
  destruct JP as [tail JP].
  replace ([hdr; []] ++ s1 ++ s2 ++ s3 ++ s4
           ++ [py "## Full Transcript"; transcript self])
    with ((P ++ [py "## Full Transcript"]) ++ [transcript self])
    by (unfold P; rewrite <- !app_assoc; reflexivity).
  rewrite removelast_last.
  assert (HP : P <> []) by (unfold P; discriminate).
  rewrite join_app_last by (destruct P; [congruence | discriminate]).
  rewrite (@join_app_last _ _ P HP).
  change (py "## Full Transcript") with (py "## Full Transcrip" ++ [116%N]).
  replace ((join [nl] P ++ [nl] ++ py "## Full Transcrip" ++ [116%N])
           ++ [nl] ++ transcript self)
    with ((join [nl] P ++ [nl] ++ py "## Full Transcrip")
          ++ 116%N :: (nl :: transcript self))
    by (rewrite <- !app_assoc; reflexivity).
  rewrite (@strip_between 35%N 116%N (tail ++ [nl] ++ py "## Full Transcrip")
             (join [nl] P ++ [nl] ++ py "## Full Transcrip")
             (nl :: transcript self))
    by (first [ rewrite JP; reflexivity | reflexivity ]).
  rewrite <- !app_assoc. reflexivity.
Qed.

(** A transcript that ends in blank lines, and a transcript that is
    blank. *)
Example trailing_blank_lines_trimmed :
  to_markdown (fun _ => [])
    (empty_minutes (py "hello" ++ [nl; nl]) (py "2024-01-01")) (py "Standup")
  = py "# Standup - 2024-01-01" ++ [nl; nl] ++ py "## Full Transcript"
    ++ [nl] ++ py "hello" ++ [nl].
Proof. vm_compute. reflexivity. Qed.


(** ** The whole run *)

Section MainFacts.

Variable Sample : Type.
Variable format_value : pyval -> pystr.
Variable whisper : nat -> transcription_request Sample -> result pystr.
Variable chat : chat_request -> result (option pystr).

(** X9: when the API key is unset or empty, or the audio path does not
    exist or is not a file, [main] ends with [SystemExit] before any
    request is made. *)
Theorem main_refuses_before_any_request (env_key : option pystr)
  (args : Args Sample) :
  env_key = None \/ env_key = Some []
  \/ path_exists (arg_audio args) = false
  \/ path_is_file (arg_audio args) = false ->
  exists msg,
    main format_value whisper chat env_key args
    = ([], Raise (SystemExit msg)).
Proof.
  intros H. unfold main.
  destruct (require_api_key env_key) as [key|e] eqn:K.
  - assert (Bad : path_exists (arg_audio args) = false
                  \/ path_is_file (arg_audio args) = false).
    { destruct H as [-> | [-> | H]]; [discriminate | discriminate | exact H]. }
    unfold transcribe_audio.
    destruct (validate_audio_path_cases (arg_audio args))
      as [[E [F _]]|[_ [msg V]]].
    + destruct Bad; congruence.
    + rewrite V. exists msg. reflexivity.
  - unfold require_api_key in K.
    destruct env_key as [[|c k]|]; inversion K; eexists; reflexivity.
Qed.



End MainFacts.

(** ** Decoding a text followed by a newline *)

Lemma skip_ws_app_cons (s t r : pystr) (c : N) :
  skip_ws s = c :: r -> skip_ws (s ++ t) = c :: r ++ t.
Proof.
  induction s as [|a s IH]; cbn [skip_ws app]; [discriminate|].
  destruct (is_ws a); [exact IH|].
  intros H. inversion H; subst. reflexivity.
Qed.

Lemma skip_ws_app_nil (s t : pystr) :
  skip_ws s = [] -> skip_ws (s ++ t) = skip_ws t.
Proof.
  induction s as [|a s IH]; cbn [skip_ws app]; [reflexivity|].
  destruct (is_ws a); [exact IH | discriminate].
Qed.

Lemma take_digits_newline (s : pystr) :
  take_digits (s ++ [nl])
  = (fst (take_digits s), snd (take_digits s) ++ [nl]).
Proof.
  induction s as [|c r IH]; [reflexivity|].
  cbn [app take_digits]. destruct (is_digit c); [|reflexivity].
  rewrite IH. destruct (take_digits r). reflexivity.
Qed.

Lemma after_prefix_newline (p s : pystr) :
  forallb (fun c => negb (c =? nl)%N) p = true ->
  after_prefix p (s ++ [nl])
  = option_map (fun rest => rest ++ [nl]) (after_prefix p s).
Proof.
  revert s. induction p as [|a p IH]; intros s Hp; [reflexivity|].
  cbn [forallb] in Hp. apply andb_prop in Hp. destruct Hp as [Ha Hp].
  destruct s as [|c s]; cbn [app after_prefix].
  - apply negb_true_iff in Ha. rewrite Ha. reflexivity.
  - destruct (a =? c)%N; [apply IH; exact Hp | reflexivity].
Qed.

Lemma match_integer_newline (s : pystr) :
  match_integer (s ++ [nl]) = with_newline (match_integer s).
Proof.
  assert (G : forall (neg : bool) (s1 : pystr),
             match s1 ++ [nl] with
             | [] => None
             | c :: r =>
                 if (c =? 48)%N then Some (neg, [c], r)
                 else if is_digit c
                      then let (ds, rest) := take_digits r in
                           Some (neg, c :: ds, rest)
                      else None
             end
             = with_newline
                 match s1 with
                 | [] => None
                 | c :: r =>
                     if (c =? 48)%N then Some (neg, [c], r)
                     else if is_digit c
                          then let (ds, rest) := take_digits r in
                               Some (neg, c :: ds, rest)
                          else None
                 end).
  { intros neg [|c r]; [reflexivity|]. cbn [app].
    destruct (c =? 48)%N; [reflexivity|].
    destruct (is_digit c); [|reflexivity].
    rewrite take_digits_newline. destruct (take_digits r). reflexivity. }
  unfold match_integer. destruct s as [|c r]; [reflexivity|].
  cbn [app]. destruct (c =? 45)%N.
  - apply (G true r).
  - apply (G false (c :: r)).
Qed.

Lemma match_frac_newline (s : pystr) :
  match_frac (s ++ [nl])
  = (fst (match_frac s), snd (match_frac s) ++ [nl]).
Proof.
  unfold match_frac. destruct s as [|c r]; [reflexivity|].
  cbn [app]. destruct (c =? 46)%N; [|reflexivity].
  rewrite take_digits_newline.
  destruct (take_digits r) as [[|d ds] rest]; reflexivity.
Qed.

Lemma match_exp_newline (s : pystr) :
  match_exp (s ++ [nl])
  = (fst (match_exp s), snd (match_exp s) ++ [nl]).
Proof.
  unfold match_exp. destruct s as [|c r]; [reflexivity|].
  cbn [app]. destruct ((c =? 101) || (c =? 69))%N; [|reflexivity].
  destruct r as [|sg r']; [reflexivity|].
  cbn [app].
  destruct (sg =? 45)%N.
  { rewrite take_digits_newline.
    destruct (take_digits r') as [[|d ds] rest]; reflexivity. }
  destruct (sg =? 43)%N.
  { rewrite take_digits_newline.
    destruct (take_digits r') as [[|d ds] rest]; reflexivity. }
  change (sg :: r' ++ [nl]) with ((sg :: r') ++ [nl]).
  rewrite take_digits_newline.
  destruct (take_digits (sg :: r')) as [[|d ds] rest]; reflexivity.
Qed.

Lemma match_number_newline (s : pystr) :
  match_number (s ++ [nl]) = with_newline (match_number s).
Proof.
  unfold match_number. rewrite match_integer_newline.
  destruct (match_integer s) as [[[neg ids] r1]|]; [|reflexivity].
  cbn [with_newline]. rewrite match_frac_newline.
  destruct (match_frac r1) as [fds r2]. cbn [fst snd].
  rewrite match_exp_newline.
  destruct (match_exp r2) as [ex r3]. cbn [fst snd].
  destruct fds; destruct ex; reflexivity.
Qed.

Lemma scan_atom_newline (s : pystr) :
  scan_atom (s ++ [nl]) = with_newline (scan_atom s).
Proof.
  unfold scan_atom.
  rewrite !after_prefix_newline by reflexivity.
  rewrite match_number_newline.
  repeat match goal with
  | |- context [after_prefix ?p s] =>
      destruct (after_prefix p s); cbn [option_map with_newline];
      [reflexivity|]
  | |- context [match_number s] =>
      destruct (match_number s) as [[? ?]|]; cbn [with_newline];
      [reflexivity|]
  end.
  reflexivity.
Qed.

Lemma scan_units_suffix_bounded (t : pystr) (n : nat) :
  forall s u rest,
    length s <= n ->
    scan_units s = Some (u, rest) ->
    scan_units (s ++ t) = Some (u, rest ++ t).
Proof.
  induction n as [|n IH]; intros s u rest Hn H.
  - destruct s; [discriminate | simpl in Hn; lia].
  - destruct s as [|c r]; [discriminate|].
    simpl in Hn. cbn [scan_units app] in *.
    destruct (c =? 34)%N.
    { inversion H; subst. reflexivity. }
    destruct (c =? 92)%N.
    + destruct r as [|e r1]; [discriminate|].
      simpl in Hn. cbn [app].
      destruct (e =? 117)%N.
      * destruct r1 as [|h1 [|h2 [|h3 [|h4 r2]]]]; try discriminate.
        simpl in Hn. cbn [app].
        destruct (hex4 h1 h2 h3 h4) as [uni|]; [|discriminate].
        destruct (scan_units r2) as [[u' rest']|] eqn:P; [|discriminate].
        rewrite (IH r2 u' rest') by (lia || exact P).
        inversion H; subst. reflexivity.
      * destruct (backslash e); [|discriminate].
        destruct (scan_units r1) as [[u' rest']|] eqn:P; [|discriminate].
        rewrite (IH r1 u' rest') by (lia || exact P).
        inversion H; subst. reflexivity.
    + destruct (c <? 32)%N; [discriminate|].
      destruct (scan_units r) as [[u' rest']|] eqn:P; [|discriminate].
      rewrite (IH r u' rest') by (lia || exact P).
      inversion H; subst. reflexivity.
Qed.

Lemma scanstring_suffix (s t u rest : pystr) :
  scanstring s = Some (u, rest) ->
  scanstring (s ++ t) = Some (u, rest ++ t).
Proof.
  unfold scanstring. intros H.
  destruct (scan_units s) as [[units rest']|] eqn:E; [|discriminate].
  rewrite (@scan_units_suffix_bounded t (length s) s units rest'
             (le_n _) E).
  inversion H; subst. reflexivity.
Qed.

Lemma scan_once_nil (f : nat) (v : pyval) (rest : pystr) :
  scan_once f [] <> Parsed v rest.
Proof. destruct f; discriminate. Qed.

Lemma array_items_nil (f : nat) (vs : list pyval) (rest : pystr) :
  array_items f [] <> Parsed vs rest.
Proof.
  destruct f as [|f]; [discriminate|]. cbn [array_items].
  destruct f; discriminate.
Qed.

Lemma skip_ws_before (P : Prop) (s t : pystr) :
  (skip_ws s = [] -> P) ->
  (skip_ws (s ++ t) = skip_ws s ++ t -> P) -> P.
Proof.
  intros Hnil Hcons. destruct (skip_ws s) as [|c r] eqn:E.
  - apply Hnil. reflexivity.
  - apply Hcons. apply skip_ws_app_cons. exact E.
Qed.

(** A value scanned in a text is scanned the same way in the text
    followed by a newline. *)
Lemma scan_newline (f : nat) :
  (forall s v rest,
     scan_once f s = Parsed v rest ->
     scan_once f (s ++ [nl]) = Parsed v (rest ++ [nl]))
  /\ (forall s vs rest,
        array_items f s = Parsed vs rest ->
        array_items f (s ++ [nl]) = Parsed vs (rest ++ [nl]))
  /\ (forall s kvs rest,
        object_items f s = Parsed kvs rest ->
        object_items f (s ++ [nl]) = Parsed kvs (rest ++ [nl])).
Proof.
  induction f as [|f [IHv [IHa IHo]]].
  - repeat split; intros; discriminate.
  - repeat split.
    + intros s v rest H. cbn [scan_once] in *.
      destruct s as [|c r]; [discriminate|]. cbn [app].
      destruct (c =? 34)%N.
      { destruct (scanstring r) as [[t rest']|] eqn:E; [|discriminate].
        rewrite (scanstring_suffix _ [nl] E).
        inversion H; subst. reflexivity. }
      destruct (c =? 123)%N.
      { destruct (skip_ws r) as [|c1 r1] eqn:W; [discriminate|].
        rewrite (skip_ws_app_cons _ [nl] W).
        destruct (c1 =? 125)%N; [inversion H; subst; reflexivity|].
        destruct (c1 =? 34)%N; [|discriminate].
        destruct (object_items f r1) as [pairs rest'| |] eqn:E;
          try discriminate.
        rewrite (IHo _ _ _ E). inversion H; subst. reflexivity. }
      destruct (c =? 91)%N.
      { destruct (skip_ws r) as [|c1 r1] eqn:W; [discriminate|].
        rewrite (skip_ws_app_cons _ [nl] W).
        destruct (c1 =? 93)%N; [inversion H; subst; reflexivity|].
        destruct (array_items f (c1 :: r1)) as [values rest'| |] eqn:E;
          try discriminate.
        change (c1 :: r1 ++ [nl]) with ((c1 :: r1) ++ [nl]).
        rewrite (IHa _ _ _ E). inversion H; subst. reflexivity. }
      change (c :: r ++ [nl]) with ((c :: r) ++ [nl]).
      rewrite scan_atom_newline.
      destruct (scan_atom (c :: r)) as [[v' rest']|]; [|discriminate].
      inversion H; subst. reflexivity.
    + intros s vs rest H. cbn [array_items] in *.
      destruct (scan_once f s) as [v rest0| |] eqn:E; try discriminate.
      rewrite (IHv _ _ _ E).
      destruct (skip_ws rest0) as [|c r] eqn:W; [discriminate|].
      rewrite (skip_ws_app_cons _ [nl] W).
      destruct (c =? 93)%N; [inversion H; subst; reflexivity|].
      destruct (c =? 44)%N; [|discriminate].
      destruct (array_items f (skip_ws r)) as [vs' rest'| |] eqn:A;
        try discriminate.
      apply (@skip_ws_before _ r [nl]).
      * intros N. rewrite N in A. exfalso. exact (array_items_nil _ A).
      * intros ->. rewrite (IHa _ _ _ A). inversion H; subst. reflexivity.
    + intros s kvs rest H. cbn [object_items] in *.
      destruct (scanstring s) as [[key r0]|] eqn:K; [|discriminate].
      rewrite (scanstring_suffix _ [nl] K).
      destruct (skip_ws r0) as [|c r1] eqn:W0; [discriminate|].
      rewrite (skip_ws_app_cons _ [nl] W0).
      destruct (c =? 58)%N; [|discriminate].
      destruct (scan_once f (skip_ws r1)) as [v rest0| |] eqn:E;
        try discriminate.
      apply (@skip_ws_before _ r1 [nl]).
      * intros N. rewrite N in E. exfalso. exact (scan_once_nil _ E).
      * intros ->. rewrite (IHv _ _ _ E).
        destruct (skip_ws rest0) as [|c2 r2] eqn:W2; [discriminate|].
        rewrite (skip_ws_app_cons _ [nl] W2).
        destruct (c2 =? 125)%N; [inversion H; subst; reflexivity|].
        destruct (c2 =? 44)%N; [|discriminate].
        destruct (skip_ws r2) as [|q r3] eqn:W3; [discriminate|].
        rewrite (skip_ws_app_cons _ [nl] W3).
        destruct (q =? 34)%N; [|discriminate].
        destruct (object_items f r3) as [kvs' rest'| |] eqn:O;
          try discriminate.
        rewrite (IHo _ _ _ O). inversion H; subst. reflexivity.
Qed.

(** One unfolding of each loop. *)
Lemma scan_once_step (f : nat) (s : pystr) :
  scan_once (S f) s =
  match s with
  | [] => Invalid
  | c :: r =>
      if (c =? 34)%N then
        match scanstring r with
        | Some (t, rest) => Parsed (PStr t) rest
        | None => Invalid
        end
      else if (c =? 123)%N then
        match skip_ws r with
        | c1 :: r1 =>
            if (c1 =? 125)%N then Parsed (PDict []) r1
            else if (c1 =? 34)%N then
              match object_items f r1 with
              | Parsed pairs rest => Parsed (PDict (dict_of_pairs pairs)) rest
              | Invalid => Invalid
              | Starved => Starved
              end
            else Invalid
        | [] => Invalid
        end
      else if (c =? 91)%N then
        match skip_ws r with
        | c1 :: r1 =>
            if (c1 =? 93)%N then Parsed (PList []) r1
            else
              match array_items f (c1 :: r1) with
              | Parsed values rest => Parsed (PList values) rest
              | Invalid => Invalid
              | Starved => Starved
              end
        | [] => Invalid
        end
      else
        match scan_atom s with
        | Some (v, rest) => Parsed v rest
        | None => Invalid
        end
  end.
Proof. destruct s; reflexivity. Qed.

Lemma array_items_step (f : nat) (s : pystr) :
  array_items (S f) s =
  match scan_once f s with
  | Parsed v rest =>
      match skip_ws rest with
      | c :: r =>
          if (c =? 93)%N then Parsed [v] r
          else if (c =? 44)%N then
            match array_items f (skip_ws r) with
            | Parsed vs rest' => Parsed (v :: vs) rest'
            | Invalid => Invalid
            | Starved => Starved
            end
          else Invalid
      | [] => Invalid
      end
  | Invalid => Invalid
  | Starved => Starved
  end.
Proof. reflexivity. Qed.

Lemma object_items_step (f : nat) (s : pystr) :
  object_items (S f) s =
  match scanstring s with
  | None => Invalid
  | Some (key, r0) =>
      match skip_ws r0 with
      | c :: r1 =>
          if (c =? 58)%N then
            match scan_once f (skip_ws r1) with
            | Parsed v rest =>
                match skip_ws rest with
                | c2 :: r2 =>
                    if (c2 =? 125)%N then Parsed [(key, v)] r2
                    else if (c2 =? 44)%N then
                      match skip_ws r2 with
                      | q :: r3 =>
                          if (q =? 34)%N then
                            match object_items f r3 with
                            | Parsed kvs rest' =>
                                Parsed ((key, v) :: kvs) rest'
                            | Invalid => Invalid
                            | Starved => Starved
                            end
                          else Invalid
                      | [] => Invalid
                      end
                    else Invalid
                | [] => Invalid
                end
            | Invalid => Invalid
            | Starved => Starved
            end
          else Invalid
      | [] => Invalid
      end
  end.
Proof. reflexivity. Qed.

(** More fuel does not change what was scanned. *)
Lemma scan_more_fuel (f : nat) :
  (forall s v rest,
     scan_once f s = Parsed v rest -> scan_once (S f) s = Parsed v rest)
  /\ (forall s vs rest,
        array_items f s = Parsed vs rest ->
        array_items (S f) s = Parsed vs rest)
  /\ (forall s kvs rest,
        object_items f s = Parsed kvs rest ->
        object_items (S f) s = Parsed kvs rest).
Proof.
  induction f as [|f [IHv [IHa IHo]]].
  - repeat split; intros; discriminate.
  - repeat split.
    + intros s v rest H.
      rewrite scan_once_step in H. rewrite (scan_once_step (S f) s).
      destruct s as [|c r]; [discriminate|].
      destruct (c =? 34)%N; [exact H|].
      destruct (c =? 123)%N.
      { destruct (skip_ws r) as [|c1 r1]; [discriminate|].
        destruct (c1 =? 125)%N; [exact H|].
        destruct (c1 =? 34)%N; [|discriminate].
        destruct (object_items f r1) as [pairs rest'| |] eqn:E;
          try discriminate.
        rewrite (IHo _ _ _ E). exact H. }
      destruct (c =? 91)%N.
      { destruct (skip_ws r) as [|c1 r1]; [discriminate|].
        destruct (c1 =? 93)%N; [exact H|].
        destruct (array_items f (c1 :: r1)) as [values rest'| |] eqn:E;
          try discriminate.
        rewrite (IHa _ _ _ E). exact H. }
      exact H.
    + intros s vs rest H.
      rewrite array_items_step in H. rewrite (array_items_step (S f) s).
      destruct (scan_once f s) as [v rest0| |] eqn:E; try discriminate.
      rewrite (IHv _ _ _ E).
      destruct (skip_ws rest0) as [|c r]; [discriminate|].
      destruct (c =? 93)%N; [exact H|].
      destruct (c =? 44)%N; [|discriminate].
      destruct (array_items f (skip_ws r)) as [vs' rest'| |] eqn:A;
        try discriminate.
      rewrite (IHa _ _ _ A). exact H.
    + intros s kvs rest H.
      rewrite object_items_step in H. rewrite (object_items_step (S f) s).
      destruct (scanstring s) as [[key r0]|]; [|discriminate].
      destruct (skip_ws r0) as [|c r1]; [discriminate|].
      destruct (c =? 58)%N; [|discriminate].
      destruct (scan_once f (skip_ws r1)) as [v rest0| |] eqn:E;
        try discriminate.
      rewrite (IHv _ _ _ E).
      destruct (skip_ws rest0) as [|c2 r2]; [discriminate|].
      destruct (c2 =? 125)%N; [exact H|].
      destruct (c2 =? 44)%N; [|discriminate].
      destruct (skip_ws r2) as [|q r3]; [discriminate|].
      destruct (q =? 34)%N; [|discriminate].
      destruct (object_items f r3) as [kvs' rest'| |] eqn:O;
        try discriminate.
      rewrite (IHo _ _ _ O). exact H.
Qed.

Lemma scan_once_fuel_le (f f' : nat) (s rest : pystr) (v : pyval) :
  f <= f' -> scan_once f s = Parsed v rest -> scan_once f' s = Parsed v rest.
Proof.
  intros Hle H. induction Hle as [|f' _ IH]; [exact H|].
  apply (proj1 (scan_more_fuel f')). exact IH.
Qed.

(** [json.loads] reads a text between two newlines as it reads the
    text. *)
Lemma json_loads_between_newlines (text : pystr) (v : pyval) :
  json_loads text = Some v ->
  json_loads ([nl] ++ text ++ [nl]) = Some v.
Proof.
  unfold json_loads. intros H.
  assert (H' : match scan_once (fuel_for text) (skip_ws text) with
               | Parsed v0 rest =>
                   match skip_ws rest with
                   | [] => Some v0
                   | _ :: _ => None
                   end
               | _ => None
               end = Some v).
  { destruct text as [|c r]; [exact H|].
    destruct c as [|p]; [exact H|].
    repeat (destruct p as [p|p|]; try exact H); discriminate. }
  clear H.
  destruct (scan_once (fuel_for text) (skip_ws text)) as [v0 rest| |] eqn:E;
    try discriminate.
  destruct (skip_ws rest) as [|c r] eqn:W; [|discriminate].
  inversion H'; subst v0; clear H'.
  change ([nl] ++ text ++ [nl]) with (nl :: (text ++ [nl])).
  cbv beta iota.
  change (skip_ws (nl :: text ++ [nl])) with (skip_ws (text ++ [nl])).
  apply (@skip_ws_before _ text [nl]).
  - intros N. rewrite N in E. exfalso. exact (scan_once_nil _ E).
  - intros ->.
    rewrite (@scan_once_fuel_le (fuel_for text)
               (fuel_for (nl :: text ++ [nl])) (skip_ws text ++ [nl])
               (rest ++ [nl]) v).
    + rewrite (@skip_ws_app_nil rest [nl] W). reflexivity.
    + unfold fuel_for. cbn [length]. rewrite length_app. lia.
    + apply (proj1 (scan_newline (fuel_for text))). exact E.
Qed.

(** ** Fenced payloads *)

Lemma json_loads_backtick (r : pystr) : json_loads (backtick :: r) = None.
Proof. reflexivity. Qed.

(** No JSON text starts with the letter j. *)
Lemma json_loads_letter_j (r : pystr) : json_loads (106%N :: r) = None.
Proof. reflexivity. Qed.

Lemma strip_fenced (tag text : pystr) :
  strip (fenced tag text) = fenced tag text.
Proof.
  unfold strip, strip_by, fenced.
  change (py "```") with [backtick; backtick; backtick].
  cbn [app lstrip]. change (is_space backtick) with false. cbv iota.
  change (backtick :: backtick :: backtick
          :: tag ++ nl :: text ++ [nl; backtick; backtick; backtick])
    with ([backtick; backtick; backtick]
          ++ tag ++ nl :: text ++ [nl; backtick; backtick; backtick]).
  replace ([backtick; backtick; backtick]
           ++ tag ++ nl :: text ++ [nl; backtick; backtick; backtick])
    with (([backtick; backtick; backtick] ++ tag ++ nl :: text
           ++ [nl; backtick; backtick]) ++ backtick :: [])
    by (rewrite <- !app_assoc; cbn [app]; rewrite <- !app_assoc;
        reflexivity).
  rewrite rstrip_stops by reflexivity. reflexivity.
Qed.

(** What the second attempt decodes for a fenced text whose tag does
    not start with a backtick. *)
Lemma strip_backticks_fenced (tag text : pystr) :
  lstrip (N.eqb backtick) tag = tag ->
  strip_backticks (fenced tag text) = tag ++ [nl] ++ text ++ [nl].
Proof.
  intros Htag. unfold strip_backticks, strip_by, fenced.
  change (py "```") with [backtick; backtick; backtick].
  cbn [app lstrip]. change (backtick =? backtick)%N with true. cbv iota.
  rewrite lstrip_stops by reflexivity. rewrite Htag.
  replace (tag ++ nl :: text ++ [nl; backtick; backtick; backtick])
    with ((tag ++ nl :: text) ++ nl :: [backtick; backtick; backtick])
    by (rewrite <- app_assoc; reflexivity).
  rewrite rstrip_stops by reflexivity.
  change (rstrip (N.eqb backtick) [backtick; backtick; backtick])
    with (@nil N).
  rewrite <- app_assoc. reflexivity.
Qed.

Lemma decode_content_fenced (tag text : pystr) :
  lstrip (N.eqb backtick) tag = tag ->
  decode_content (fenced tag text) =
  match json_loads (tag ++ [nl] ++ text ++ [nl]) with
  | Some v => v
  | None => PDict []
  end.
Proof.
  intros Htag. rewrite decode_content_chain.
  rewrite strip_fenced, (strip_backticks_fenced text Htag).
  unfold fenced. change (py "```") with [backtick; backtick; backtick].
  cbn [app]. rewrite json_loads_backtick. reflexivity.
Qed.

Lemma fenced_nonempty (tag text : pystr) :
  content_or_default (Some (fenced tag text)) = fenced tag text.
Proof. reflexivity. Qed.

(** X12: a payload that decodes on its own decodes to the same value
    when it comes between two bare fences of three backticks; the
    minutes are those of the payload itself. *)
Theorem bare_fence_recovered (text transcript_text meeting_date : pystr)
  (v : pyval) :
  json_loads text = Some v ->
  decode_content (fenced [] text) = v
  /\ minutes_of_content (Some (fenced [] text)) transcript_text meeting_date
     = minutes_of_content (Some text) transcript_text meeting_date.
Proof.
  intros H.
  assert (D : decode_content (fenced [] text) = v).
  { rewrite decode_content_fenced by reflexivity.
    change ([] ++ [nl] ++ text ++ [nl]) with ([nl] ++ text ++ [nl]).
    rewrite (json_loads_between_newlines text H). reflexivity. }
  split; [exact D|].
  unfold minutes_of_content. rewrite fenced_nonempty, D.
  destruct text as [|c r]; [discriminate H|].
  cbn [content_or_default]. rewrite decode_content_chain, H. reflexivity.
Qed.

(** X13: whatever stands between the fences, a payload whose opening
    fence carries the tag [json] is decoded by neither attempt, and the
    minutes come out with every structured field empty. *)
Theorem json_tagged_fence_defaults (text transcript_text meeting_date : pystr) :
  decode_content (fenced (py "json") text) = PDict []
  /\ minutes_of_content (Some (fenced (py "json") text)) transcript_text
       meeting_date
     = Ok (empty_minutes transcript_text meeting_date).
Proof.
  assert (D : decode_content (fenced (py "json") text) = PDict []).
  { rewrite decode_content_fenced by reflexivity.
    change (py "json" ++ [nl] ++ text ++ [nl])
      with (106%N :: (py "son" ++ [nl] ++ text ++ [nl])).
    rewrite json_loads_letter_j. reflexivity. }
  split; [exact D|].
  unfold minutes_of_content. rewrite fenced_nonempty, D. reflexivity.
Qed.

Lemma bare_fence_recovered_witness :
  decode_content (fenced [] (js "{'summary':['a']}"))
  = PDict [(py "summary", PList [PStr (py "a")])]
  /\ minutes_of_content (Some (fenced [] (js "{'summary':['a']}")))
       (py "hello") (py "2024-01-01")
     = minutes_of_content (Some (js "{'summary':['a']}")) (py "hello")
         (py "2024-01-01").
Proof.
  apply (@bare_fence_recovered (js "{'summary':['a']}") (py "hello")
           (py "2024-01-01")).
  vm_compute. reflexivity.
Defined.

(** ** Witnesses and compositions *)

Lemma main_refuses_before_any_request_witness :
  exists msg,
    main (fun _ => []) echo_index prose_reply None (sample_args None)
    = ([], Raise (SystemExit msg)).
Proof.
  apply (@main_refuses_before_any_request nat (fun _ => []) echo_index
           prose_reply None (sample_args None)).
  left. reflexivity.
Defined.




Section ChunkedRuns.

Variable Sample : Type.
Variable whisper : nat -> transcription_request Sample -> result pystr.


(** X15: a non-empty recording that is no longer than the chunk length
    is cut into a single chunk, the recording itself. *)
Theorem short_recording_single_chunk (audio_path : AudioFile Sample)
  (n : Z) :
  (0 < n)%Z ->
  decoded audio_path <> [] ->
  length (decoded audio_path) <= Z.to_nat (n * 1000) ->
  chunk_audio audio_path n = Ok [decoded audio_path].
Proof.
  intros Hn Hne Hlen. rewrite (chunk_audio_slices audio_path Hn).
  replace (ceil_div (length (decoded audio_path)) (Z.to_nat (n * 1000)))
    with 1.
  - unfold slices, py_slice. cbn [seq map]. cbn [Nat.mul Nat.add skipn].
    rewrite Nat.sub_0_r, firstn_all2 by exact Hlen. reflexivity.
  - apply ceil_div_unique; [lia | lia |].
    destruct (decoded audio_path); [congruence | cbn [length]; lia].
Qed.

End ChunkedRuns.


Lemma short_recording_single_chunk_witness :
  chunk_audio short_recording 1 = Ok [seq 0 700].
Proof.
  apply (@short_recording_single_chunk nat short_recording 1%Z eq_refl).
  - discriminate.
  - cbn [short_recording decoded]. rewrite length_seq. lia.
Defined.

(** X16: whatever the payload, the date and the transcript of returned
    minutes are the caller's date and the transcript handed in; no key
    of the payload overrides them. *)
Theorem date_and_transcript_from_caller (content : option pystr)
  (text meeting_date : pystr) (m : MeetingMinutes) :
  minutes_of_content content text meeting_date = Ok m ->
  date m = meeting_date /\ transcript m = text.
Proof.
  unfold minutes_of_content. intros H.
  destruct (decode_content (content_or_default content)) as [| | | | | |d];
    try (cbn in H; discriminate H).
  unfold minutes_of_data in H. rewrite !list_field_dict in H.
  cbn [bind] in H.
  destruct (collect_actions _) as [acts|e]; cbn [bind] in H;
    inversion H; subst. split; reflexivity.
Qed.

Lemma date_and_transcript_from_caller_witness :
  py "2024-01-01" = py "2024-01-01" /\ py "hello" = py "hello".
Proof.
  apply (@date_and_transcript_from_caller
           (Some (js "{'date':'1999-12-31','transcript':'other'}"))
           (py "hello") (py "2024-01-01")
           (empty_minutes (py "hello") (py "2024-01-01"))).
  vm_compute. reflexivity.
Defined.
